(** * Stage2_UsingAppropriateDataStructures: lists, numpy arrays and matrices

    A shallow embedding of the notebook's benchmark functions
    ([build_list], [build_array], [square_all_array], [square_all_list],
    [square_list_FL], [square_list_LC], [generate_dense_matrix]) and of its
    three code cells, followed by the properties of the specification.

    Python lists are mutable objects reached through references, numpy
    arrays are objects that every numpy operation creates afresh, the
    notebook's top-level names form a namespace, and numpy's random
    generator is a piece of global state.  All of this is threaded through a
    state and exception monad.

    Arithmetic on doubles is IEEE 754 binary64, bit for bit.  The two
    functions of the C library that the notebook reaches, [pow] and [cpow],
    are not fixed by IEEE 754; they are parameters of the model. *)

From Stdlib Require Import ZArith Lia.
From Stdlib Require Import Floats.SpecFloat.
From stdpp Require Import base tactics option list list_numbers.

Local Open Scope Z_scope.

(** ** IEEE 754 binary64, the element type of [float64] arrays *)

Module Float64.

Definition prec : Z := 53.
Definition emax : Z := 1024.

(** Conversion of an integer, rounding to nearest with ties to even: the
    conversion numpy applies when an integer is stored in a [float64]
    array. *)
Definition of_int (z : Z) : spec_float := binary_normalize prec emax z 0 false.

Definition add : spec_float → spec_float → spec_float := SFadd prec emax.
Definition sub : spec_float → spec_float → spec_float := SFsub prec emax.
Definition mul : spec_float → spec_float → spec_float := SFmul prec emax.
Definition div : spec_float → spec_float → spec_float := SFdiv prec emax.

(** [x > y]; false as soon as one side is NaN. *)
Definition gt (x y : spec_float) : bool := SFltb y x.

Definition is_zero (x : spec_float) : bool :=
  match x with S754_zero _ => true | _ => false end.

Definition is_infinite (x : spec_float) : bool :=
  match x with S754_infinity _ => true | _ => false end.

(** The double [x] has exactly the value of the integer [z]: the finite
    double [(-1)^s * m * 2^e] and [z] are the same number.  Infinities and
    NaN have the value of no integer. *)
Definition eq_int (x : spec_float) (z : Z) : bool :=
  match x with
  | S754_zero _ => z =? 0
  | S754_finite s m e =>
      let v := cond_Zopp s (Zpos m) in
      if 0 <=? e then v * 2 ^ e =? z else v =? z * 2 ^ (- e)
  | S754_infinity _ | S754_nan => false
  end.

End Float64.

(** ** Complex numbers and two-dimensional buffers

    The buffers of the third block come out of [generate_dense_matrix] and
    hold the complex numbers 0, 1, 1j and 1+1j.  A stored buffer is given by
    the integer real and imaginary parts of its elements, and the operations
    that build it are exact on them.  Raising a buffer to a power is
    arithmetic on pairs of doubles ([Complex128] below), into which the
    stored elements are converted first. *)

Module Complex.

Record t := mk { re : Z; im : Z }.

Definition zero : t := mk 0 0.
Definition one : t := mk 1 0.
(** The literal [1j]. *)
Definition j : t := mk 0 1.

(** A Boolean read as a complex number: [True] is [1+0j]. *)
Definition of_bool (b : bool) : t := mk (Z.b2z b) 0.

Definition add (x y : t) : t := mk (re x + re y) (im x + im y).
Definition mul (x y : t) : t :=
  mk (re x * re y - im x * im y) (re x * im y + im x * re y).

End Complex.

(** A buffer is the list of its rows. *)
Abbreviation cmatrix := (list (list Complex.t)).

(** numpy's [complex128]: a pair of doubles. *)
Module Complex128.

Record t := mk { re : spec_float; im : spec_float }.

Definition zero : t := mk (S754_zero false) (S754_zero false).
Definition one : t := mk (Float64.of_int 1) (S754_zero false).

Definition of_complex (z : Complex.t) : t :=
  mk (Float64.of_int (Complex.re z)) (Float64.of_int (Complex.im z)).

Definition add (x y : t) : t :=
  mk (Float64.add (re x) (re y)) (Float64.add (im x) (im y)).

(** The product as numpy's loops compute it: four products and two sums
    of doubles, each rounded. *)
Definition mul (x y : t) : t :=
  mk (Float64.sub (Float64.mul (re x) (re y)) (Float64.mul (im x) (im y)))
     (Float64.add (Float64.mul (re x) (im y)) (Float64.mul (im x) (re y))).

(** [x == 0]: both parts are a zero, of either sign. *)
Definition is_zero (x : t) : bool := Float64.is_zero (re x) && Float64.is_zero (im x).

(** The loop of numpy's [npy_cpow] for a small integer exponent [n], from
    the lowest bit of [n] up: [p] runs through [x], [x^2], [x^4], ... and
    [aa] collects the powers whose bit is set. *)
Fixpoint pow_loop (aa p : t) (n : positive) : t :=
  match n with
  | xH => mul aa p
  | xO n' => pow_loop aa (mul p p) n'
  | xI n' => pow_loop (mul aa p) (mul p p) n'
  end.

End Complex128.

Abbreviation cmatrix128 := (list (list Complex128.t)).

(** The buffer [m] as numpy holds it, every part in a double. *)
Definition complex128_buffer (m : cmatrix) : cmatrix128 :=
  (λ row : list Complex.t, Complex128.of_complex <$> row) <$> m.

(** ** The C library

    [libm_pow_2 x] is what the platform's [pow(x, 2.0)] returns and
    [libm_cpow z n] what its [cpow(z, n + 0i)] returns.  Python's float
    power and numpy's scalar power call the first, numpy's complex power
    calls the second for exponents from 100 on.  Nothing is assumed of
    either. *)
Class Libm := {
  libm_pow_2 : spec_float → spec_float;
  libm_cpow : Complex128.t → positive → Complex128.t }.

(** ** Scalars: the numbers a list or an array can hold *)

Inductive scalar :=
  | PyInt (z : Z)                (* a Python int, unbounded *)
  | PyFloat (x : spec_float)     (* a Python float *)
  | NpFloat64 (x : spec_float)   (* a numpy.float64 *)
  | NpInt64 (z : Z).             (* a numpy.int64 *)

Inductive scalar_type := int_t | float_t | float64_t | int64_t.

Definition type_of (x : scalar) : scalar_type :=
  match x with
  | PyInt _ => int_t
  | PyFloat _ => float_t
  | NpFloat64 _ => float64_t
  | NpInt64 _ => int64_t
  end.

(** Two's complement reduction to 64 bits. *)
Definition wrap64 (z : Z) : Z := (z + 2 ^ 63) mod 2 ^ 64 - 2 ^ 63.

(** [x ** 2] for a Python float, as [float_pow] of CPython computes it:
    NaN, the infinities, the zeros and plus or minus one are settled without
    the C library; otherwise the result is [pow(|x|, 2.0)], and an infinite
    result is turned into an OverflowError ([None]). *)
Definition float_pow2 {libm : Libm} (x : spec_float) : option spec_float :=
  match x with
  | S754_nan => Some S754_nan
  | S754_infinity _ => Some (S754_infinity false)
  | S754_zero _ => Some (S754_zero false)
  | S754_finite _ m e =>
      let iv := S754_finite false m e in
      if SFeqb iv (Float64.of_int 1) then Some (Float64.of_int 1)
      else
        let ix := libm_pow_2 iv in
        if Float64.is_infinite ix then None else Some ix
  end.

(** [x ** 2].  A Python int is squared exactly, a 64-bit integer wraps
    around, a numpy.float64 is handed to [pow] of the C library, which
    raises nothing, and a Python float raises OverflowError ([None]) when
    its square overflows. *)
Definition pow2 {libm : Libm} (x : scalar) : option scalar :=
  match x with
  | PyInt z => Some (PyInt (z ^ 2))
  | PyFloat x => PyFloat <$> float_pow2 x
  | NpFloat64 x => Some (NpFloat64 (libm_pow_2 x))
  | NpInt64 z => Some (NpInt64 (wrap64 (z ^ 2)))
  end.

(** The scalar [x] has exactly the value of the integer [z]. *)
Definition scalar_eq_int (x : scalar) (z : Z) : bool :=
  match x with
  | PyInt v | NpInt64 v => v =? z
  | PyFloat x | NpFloat64 x => Float64.eq_int x z
  end.

(** [range(count)]: empty when [count] is not positive. *)
Definition range (count : Z) : list Z := seqZ 0 count.

(** ** One-dimensional numpy arrays *)

Inductive ndarray :=
  | F64 (data : list spec_float)   (* dtype float64 *)
  | I64 (data : list Z)            (* dtype int64 *)
  | Obj (data : list scalar).      (* dtype object *)

(** The scalars an array yields when it is iterated, as in
    [list(prebuilt_array)]. *)
Definition tolist (a : ndarray) : list scalar :=
  match a with
  | F64 data => NpFloat64 <$> data
  | I64 data => NpInt64 <$> data
  | Obj data => data
  end.

(** [a ** 2], element by element in the array's own element type: the
    rounded product [x * x] for doubles ([np.square]), the wrapped product
    for 64-bit integers, and Python's [x ** 2] on every element of an object
    array, whose OverflowError ([None]) is the array's. *)
Definition ndarray_pow2 {libm : Libm} (a : ndarray) : option ndarray :=
  match a with
  | F64 data => Some (F64 ((λ x, Float64.mul x x) <$> data))
  | I64 data => Some (I64 ((λ z, wrap64 (z ^ 2)) <$> data))
  | Obj data => Obj <$> mapM pow2 data
  end.

(** The array [np.append(a, z)] holds for a Python int [z]: [z] becomes a
    one-element array ([int64] when it fits, [uint64] up to [2^64 - 1],
    [object] beyond) and the concatenation has the common type of the two.
    A [float64] array stays [float64] and takes [z] rounded to a double
    unless [z] needs an object array. *)
Definition np_append_int (a : ndarray) (z : Z) : ndarray :=
  if bool_decide (- 2 ^ 63 ≤ z < 2 ^ 64) then
    match a with
    | F64 data => F64 (data ++ [Float64.of_int z])
    | I64 data =>
        if bool_decide (z < 2 ^ 63) then I64 (data ++ [z])
        else F64 ((Float64.of_int <$> data) ++ [Float64.of_int z])
    | Obj data => Obj (data ++ [PyInt z])
    end
  else
    match a with
    | F64 data => Obj ((PyFloat <$> data) ++ [PyInt z])
    | I64 data => Obj ((PyInt <$> data) ++ [PyInt z])
    | Obj data => Obj (data ++ [PyInt z])
    end.

(** [np.linspace(start, stop)] for integer bounds: 50 points of type
    [float64], [arange(50) * step + start] with the last point set to
    [stop]. *)
Definition linspace (start stop : Z) : ndarray :=
  let a := Float64.of_int start in
  let b := Float64.of_int stop in
  let delta := Float64.sub b a in
  let step := Float64.div delta (Float64.of_int 49) in
  let point (k : Z) :=
    let y := Float64.of_int k in
    let y := if Float64.is_zero step
             then Float64.mul (Float64.div y (Float64.of_int 49)) delta
             else Float64.mul y step in
    Float64.add y a in
  F64 ((point <$> range 49) ++ [b]).

(** ** Arithmetic on two-dimensional [complex128] buffers *)

Definition vzero (n : nat) : list Complex128.t := replicate n Complex128.zero.
Definition vadd (u v : list Complex128.t) : list Complex128.t :=
  zip_with Complex128.add u v.
Definition vscale (a : Complex128.t) (v : list Complex128.t) : list Complex128.t :=
  Complex128.mul a <$> v.

(** Row vector times matrix.  Entry [j] starts from zero and takes the
    products [r_k * B_kj] one after the other, in the order of [k], as
    numpy's own loop does.  A BLAS library may add them in another order;
    that changes nothing where the sums are exact. *)
Definition vec_mat (n : nat) (r : list Complex128.t) (B : cmatrix128) : list Complex128.t :=
  foldl (λ acc ar, vadd acc (vscale ar.1 ar.2)) (vzero n) (zip r B).

(** The matrix product [A . B] of [n] by [n] buffers. *)
Definition mat_mul (A B : cmatrix128) : cmatrix128 :=
  (λ r, vec_mat (length B) r B) <$> A.

Definition is_square {A} (m : list (list A)) : bool :=
  forallb (λ row, Nat.eqb (length row) (length m)) m.

(** The loop of [numpy.linalg.matrix_power], from the lowest bit of [n]
    up: [z] runs through [m], [m^2], [m^4], ... and [result] is multiplied
    on the right by those whose bit is set. *)
Fixpoint matrix_power_loop (result : option cmatrix128) (z : cmatrix128) (n : positive)
    : cmatrix128 :=
  match n with
  | xH => from_option (λ r, mat_mul r z) z result
  | xO n' => matrix_power_loop result (mat_mul z z) n'
  | xI n' =>
      matrix_power_loop (Some (from_option (λ r, mat_mul r z) z result)) (mat_mul z z) n'
  end.

(** [np.matrix.__pow__]: the matrix product of [p] copies of [m].  The
    exponents 1, 2 and 3 are multiplied out, the others go through the
    loop. *)
Definition matrix_power (m : cmatrix128) (p : positive) : cmatrix128 :=
  match p with
  | 1 => m
  | 2 => mat_mul m m
  | 3 => mat_mul (mat_mul m m) m
  | _ => matrix_power_loop None m p
  end%positive.

(** numpy's [npy_cpow] for a positive integer exponent: zero to a positive
    power is zero; the exponents 1, 2 and 3 are multiplied out; exponents
    below 100 go through the loop; from 100 on the C library's [cpow] is
    called. *)
Definition npy_cpow {libm : Libm} (a : Complex128.t) (n : positive) : Complex128.t :=
  if Complex128.is_zero a then Complex128.zero
  else
    match n with
    | 1 => a
    | 2 => Complex128.mul a a
    | 3 => Complex128.mul (Complex128.mul a a) a
    | _ =>
        if (n <? 100)%positive then Complex128.pow_loop Complex128.one a n
        else libm_cpow a n
    end%positive.

(** [np.ndarray.__pow__]: every element raised to the power [p]; the
    exponent 1 copies the array and the exponent 2 is [np.square]. *)
Definition elementwise_power {libm : Libm} (m : cmatrix128) (p : positive) : cmatrix128 :=
  let power (z : Complex128.t) :=
    match p with
    | 1 => z
    | 2 => Complex128.mul z z
    | _ => npy_cpow z p
    end%positive in
  (λ row : list Complex128.t, power <$> row) <$> m.


(** The two abstractions that wrap a two-dimensional buffer. *)
Inductive buffer2 (A : Type) :=
  | Ndarray2 (m : list (list A))   (* np.ndarray *)
  | Matrix (m : list (list A)).    (* np.matrix *)
Arguments Ndarray2 {A} m.
Arguments Matrix {A} m.

Definition entries {A} (b : buffer2 A) : list (list A) :=
  match b with Ndarray2 m | Matrix m => m end.

(** [np.matrix(b)] *)
Definition np_matrix {A} (b : buffer2 A) : buffer2 A := Matrix (entries b).

(** ** Interpreter state *)

(** Lists and arrays are kept in two stores, and a reference tells by its
    type which kind of object it names: the notebook passes lists to the
    list functions and arrays to the array functions. *)
Record list_ref := ListRef { list_addr : nat }.
Record array_ref := ArrayRef { array_addr : nat }.

(** The notebook's top-level names.  [np] tells whether the name [np] is
    bound, by [import numpy as np], to the numpy module; a data name is
    [None] while it is unbound.  The name [timeit] that the first block
    also imports is read nowhere ([%timeit] is a command of the shell), and
    a function name is bound by the [def] of the block that calls it. *)
Record globals := Globals {
  np : bool;
  prebuilt_array : option array_ref;
  prebuilt_list : option list_ref;
  big_ndarray : option (buffer2 Complex.t);
  big_matrix : option (buffer2 Complex.t) }.

(** [rng_stream] is the realization of numpy's global random source, the
    sequence of numbers it will ever deliver, and [rng_pos] counts how many
    of them have been drawn. *)
Record state := State {
  lists : list (list scalar);
  arrays : list ndarray;
  rng_stream : nat → spec_float;
  rng_pos : nat;
  env : globals }.

Definition set_lists (ls : list (list scalar)) (s : state) : state :=
  State ls (arrays s) (rng_stream s) (rng_pos s) (env s).
Definition set_arrays (az : list ndarray) (s : state) : state :=
  State (lists s) az (rng_stream s) (rng_pos s) (env s).
Definition set_rng_pos (n : nat) (s : state) : state :=
  State (lists s) (arrays s) (rng_stream s) n (env s).
Definition set_env (g : globals) (s : state) : state :=
  State (lists s) (arrays s) (rng_stream s) (rng_pos s) g.

Definition no_globals : globals := Globals false None None None None.

Inductive exn := NameError | ValueError | OverflowError | InvalidRef.

(** A computation returns a value, or raises an exception, either way in a
    new state: what was done before the exception stays done. *)
Inductive outcome (A : Type) :=
  | Ok (a : A) (s : state)
  | Raise (e : exn) (s : state)
  | OutOfFuel.
Arguments Ok {A} a s.
Arguments Raise {A} e s.
Arguments OutOfFuel {A}.

Definition M (A : Type) : Type := state → outcome A.

#[global] Instance M_ret : MRet M := λ A a s, Ok a s.
#[global] Instance M_bind : MBind M := λ A B f m s,
  match m s with
  | Ok a s' => f a s'
  | Raise e s' => Raise e s'
  | OutOfFuel => OutOfFuel
  end.

Definition raise {A} (e : exn) : M A := λ s, Raise e s.
Definition out_of_fuel {A} : M A := λ _, OutOfFuel.

(** The value of a partial operation, whose failure is the exception
    [e]. *)
Definition or_raise {A} (e : exn) (r : option A) : M A :=
  match r with
  | Some a => mret a
  | None => raise e
  end.

(** *** Objects *)

Definition new_list (items : list scalar) : M list_ref := λ s,
  Ok (ListRef (length (lists s))) (set_lists (lists s ++ [items]) s).

Definition read_list (l : list_ref) : M (list scalar) := λ s,
  match lists s !! list_addr l with
  | Some items => Ok items s
  | None => Raise InvalidRef s
  end.

Definition write_list (l : list_ref) (items : list scalar) : M unit := λ s,
  Ok tt (set_lists (<[list_addr l := items]> (lists s)) s).

(** [l.append(x)] mutates the list object in place. *)
Definition list_append (l : list_ref) (x : scalar) : M unit :=
  items ← read_list l; write_list l (items ++ [x]).

Definition new_array (a : ndarray) : M array_ref := λ s,
  Ok (ArrayRef (length (arrays s))) (set_arrays (arrays s ++ [a]) s).

Definition read_array (a : array_ref) : M ndarray := λ s,
  match arrays s !! array_addr a with
  | Some arr => Ok arr s
  | None => Raise InvalidRef s
  end.

(** [np.array([])]: the list display builds an empty list, from which
    numpy builds an empty [float64] array. *)
Definition np_array_empty : M array_ref :=
  _ ← new_list []; new_array (F64 []).

(** [np.append(a, z)] returns a new array and leaves [a] alone. *)
Definition np_append (a : array_ref) (z : Z) : M array_ref :=
  arr ← read_array a; new_array (np_append_int arr z).

(** [list(a)] *)
Definition list_of_array (a : array_ref) : M list_ref :=
  arr ← read_array a; new_list (tolist arr).

(** *** Loops *)

(** [for i in range(...)]: the range is immutable, the body may rebind the
    local names [locals]. *)
Fixpoint for_range {L} (xs : list Z) (body : Z → L → M L) (locals : L) : M L :=
  match xs with
  | [] => mret locals
  | i :: xs' => locals' ← body i locals; for_range xs' body locals'
  end.

(** [for x in l] over a list object: the iterator holds the reference and
    an index, and looks the list up again at every step, so the loop sees
    whatever the body does to the list.  [fuel] bounds the number of
    steps. *)
Fixpoint for_in (fuel : nat) (l : list_ref) (idx : nat) (body : scalar → M unit) : M unit :=
  match fuel with
  | O => out_of_fuel
  | S fuel' =>
      items ← read_list l;
      match items !! idx with
      | None => mret tt
      | Some x => body x;; for_in fuel' l (S idx) body
      end
  end.

(** *** The random source *)

(** One draw of [np.random]. *)
Definition random_sample : M spec_float := λ s,
  Ok (rng_stream s (rng_pos s)) (set_rng_pos (S (rng_pos s)) s).

Fixpoint draw (n : nat) : M (list spec_float) :=
  match n with
  | O => mret []
  | S n' => x ← random_sample; xs ← draw n'; mret (x :: xs)
  end.

Fixpoint draw_rows (rows cols : nat) : M (list (list spec_float)) :=
  match rows with
  | O => mret []
  | S rows' => r ← draw cols; rs ← draw_rows rows' cols; mret (r :: rs)
  end.

(** [np.random.rand(d0, d1)]: [d0 * d1] draws, row by row; negative
    dimensions are refused. *)
Definition np_random_rand (d0 d1 : Z) : M (list (list spec_float)) :=
  if bool_decide (d0 < 0 ∨ d1 < 0) then raise ValueError
  else draw_rows (Z.to_nat d0) (Z.to_nat d1).

(** *** Exponentiation of a wrapped buffer *)

(** [b ** p] dispatches on the abstraction: element-wise for an ndarray,
    matrix product for a matrix, which must be square.  The result is a
    buffer of doubles. *)
Definition buffer_pow {libm : Libm} (b : buffer2 Complex.t) (p : positive) : M (buffer2 Complex128.t) :=
  match b with
  | Ndarray2 m => mret (Ndarray2 (elementwise_power (complex128_buffer m) p))
  | Matrix m =>
      if is_square m then mret (Matrix (matrix_power (complex128_buffer m) p))
      else raise ValueError
  end.

(** *** The namespace *)

Definition lookup_name {A} (name : globals → option A) : M A := λ s,
  match name (env s) with
  | Some v => Ok v s
  | None => Raise NameError s
  end.

(** Evaluating the name [np]. *)
Definition np_global : M unit := λ s,
  if np (env s) then Ok tt s else Raise NameError s.

Definition bind_name (update : globals → globals) : M unit := λ s,
  Ok tt (set_env (update (env s)) s).

(** [%timeit stmt] executes [stmt] at least once, here [S extra] times, and
    drops its value.  The printed timing is not part of the model. *)
Fixpoint timeit {A} (extra : nat) (stmt : M A) : M unit :=
  match extra with
  | O => stmt;; mret tt
  | S extra' => stmt;; timeit extra' stmt
  end.

(** ** The notebook

    In the body of a function [np] stands for the numpy module; whether the
    name is bound is checked, with [np_global], by the block that calls the
    function, before the call. *)

(** *** First block: lists vs. numpy arrays *)

Definition build_list (count : Z) : M list_ref :=
  out ← new_list [];
  for_range (range count) (λ i _, list_append out (PyInt i)) tt;;
  mret out.

Definition build_array (count : Z) : M array_ref :=
  out ← np_array_empty;
  out ← for_range (range count) (λ i out, np_append out i) out;
  mret out.

Definition square_all_array {libm : Libm} (list_struct : array_ref) : M array_ref :=
  arr ← read_array list_struct;
  squares ← or_raise OverflowError (ndarray_pow2 arr);
  new_array squares.

Definition square_all_list {libm : Libm} (fuel : nat) (list_struct : list_ref) : M list_ref :=
  out ← new_list [];
  for_in fuel list_struct 0
    (λ i, square ← or_raise OverflowError (pow2 i); list_append out square);;
  mret out.

Definition cell1 {libm : Libm} (runs fuel : nat) : M unit :=
  bind_name (λ g, Globals true (prebuilt_array g) (prebuilt_list g)
                          (big_ndarray g) (big_matrix g));;
  timeit runs (build_list 5000);;
  timeit runs (np_global;; build_array 5000);;
  np_global;;
  a ← new_array (linspace 0 5000);
  bind_name (λ g, Globals (np g) (Some a) (prebuilt_list g) (big_ndarray g) (big_matrix g));;
  a ← lookup_name prebuilt_array;
  l ← list_of_array a;
  bind_name (λ g, Globals (np g) (prebuilt_array g) (Some l) (big_ndarray g) (big_matrix g));;
  timeit runs (l ← lookup_name prebuilt_list; square_all_list fuel l);;
  timeit runs (a ← lookup_name prebuilt_array; square_all_array a).

(** *** Second block: for loops vs. list comprehensions *)

Definition square_list_FL {libm : Libm} (fuel : nat) (list_struct : list_ref) : M list_ref :=
  out ← new_list [];
  for_in fuel list_struct 0
    (λ element, square ← or_raise OverflowError (pow2 element); list_append out square);;
  mret out.

(** The comprehension maps [element**2] over the list in one expression;
    the list it builds becomes an object when the expression is through. *)
Definition square_list_LC {libm : Libm} (list_struct : list_ref) : M list_ref :=
  items ← read_list list_struct;
  squares ← or_raise OverflowError (mapM (λ element, pow2 element) items);
  new_list squares.

Definition cell2 {libm : Libm} (runs fuel : nat) : M unit :=
  timeit runs (l ← lookup_name prebuilt_list; square_list_FL fuel l);;
  timeit runs (l ← lookup_name prebuilt_list; square_list_LC l).

(** *** Third block: np.ndarray vs. np.matrix *)

(** The literal [0.2], the double nearest to one fifth. *)
Definition default_density : spec_float :=
  Float64.div (Float64.of_int 1) (Float64.of_int 5).

Definition generate_dense_matrix (N : Z) (density : spec_float) : M (buffer2 Complex.t) :=
  let threshold := Float64.div density (Float64.of_int 2) in
  r ← np_random_rand N N;
  let real := (λ row : list spec_float, (λ x, Float64.gt x threshold) <$> row) <$> r in
  r ← np_random_rand N N;
  let imaginary :=
    (λ row : list spec_float,
       (λ x, Complex.mul (Complex.of_bool (Float64.gt x threshold)) Complex.j) <$> row)
    <$> r in
  mret (Ndarray2 (zip_with (zip_with (λ b z, Complex.add (Complex.of_bool b) z))
                           real imaginary)).

Definition cell3 {libm : Libm} (runs : nat) : M unit :=
  np_global;;
  b ← generate_dense_matrix 500 default_density;
  bind_name (λ g, Globals (np g) (prebuilt_array g) (prebuilt_list g) (Some b) (big_matrix g));;
  np_global;;
  b ← generate_dense_matrix 500 default_density;
  bind_name (λ g, Globals (np g) (prebuilt_array g) (prebuilt_list g) (big_ndarray g)
                          (Some (np_matrix b)));;
  timeit runs (b ← lookup_name big_matrix; buffer_pow b 300);;
  timeit runs (b ← lookup_name big_ndarray; buffer_pow b 300).

(** The notebook, run from top to bottom. *)
Definition notebook {libm : Libm} (runs fuel : nat) : M unit :=
  cell1 runs fuel;; cell2 runs fuel;; cell3 runs.

(** *** Reading results *)

(** The content of the list, or of the array, that a call returned. *)
Definition result_list (o : outcome list_ref) : option (list scalar) :=
  match o with
  | Ok r s => lists s !! list_addr r
  | _ => None
  end.

Definition result_array (o : outcome array_ref) : option ndarray :=
  match o with
  | Ok r s => arrays s !! array_addr r
  | _ => None
  end.


(** ** Notions used by the statements *)

(** A C library to run the model with: its [pow(x, 2.0)] is the correctly
    rounded square [x * x], and its [cpow(z, n)] multiplies [n] copies of
    [z]. *)
Definition rounding_libm : Libm :=
  {| libm_pow_2 x := Float64.mul x x;
     libm_cpow z n := Complex128.pow_loop Complex128.one z n |}.

(** The arrays that [np.append] creates when the numbers [zs] are appended
    one after the other, starting from [a]. *)
Fixpoint append_trace (a : ndarray) (zs : list Z) : list ndarray :=
  match zs with
  | [] => []
  | z :: zs' => np_append_int a z :: append_trace (np_append_int a z) zs'
  end.

(** The state [build_array(count)] leaves behind: the empty list of the
    list display, the empty array, and one array per iteration. *)
Definition after_build_array (count : Z) (s : state) : state :=
  State (lists s ++ [[]])
        (arrays s ++ F64 [] :: append_trace (F64 []) (range count))
        (rng_stream s) (rng_pos s) (env s).

(** A list is equal, element for element, to [range(count)]. *)
Definition equals_range (xs : list scalar) (count : Z) : Prop :=
  Forall2 (λ x i, scalar_eq_int x i = true) xs (range count).

(** [x] and the Python int [y] are the same number held in two different
    types. *)
Definition same_value_other_type (x y : scalar) : Prop :=
  type_of x ≠ type_of y ∧ ∃ z, y = PyInt z ∧ scalar_eq_int x z = true.


(** [y] is the square of [x], as the specification means it: the exact
    product for a Python int, the product reduced to 64 bits for a
    numpy.int64, what the C library's [pow] makes of a numpy.float64, and
    for a Python float the number [x ** 2] where Python gives one. *)
Inductive square_of {libm : Libm} : scalar → scalar → Prop :=
  | square_of_int (z : Z) : square_of (PyInt z) (PyInt (z * z))
  | square_of_int64 (z : Z) : square_of (NpInt64 z) (NpInt64 (wrap64 (z * z)))
  | square_of_float64 (x : spec_float) :
      square_of (NpFloat64 x) (NpFloat64 (libm_pow_2 x))
  | square_of_float (x y : spec_float) :
      float_pow2 x = Some y → square_of (PyFloat x) (PyFloat y).

Definition has_square {libm : Libm} (x : scalar) : Prop := ∃ y, square_of x y.


(** A kernel holding the list [[0, 1, 2, 3]], the arrays with the same four
    numbers, of type [int64] and of type [float64], and the list of the
    elements of the first array. *)
Definition demo_state : state :=
  State [[PyInt 0; PyInt 1; PyInt 2; PyInt 3]; tolist (I64 [0; 1; 2; 3])]
        [I64 [0; 1; 2; 3]; F64 (Float64.of_int <$> [0; 1; 2; 3])]
        (λ _, S754_zero false) 0 no_globals.

(** A kernel holding the list [[1e200]] of one Python float. *)
Definition huge_float_state : state :=
  State [[PyFloat (Float64.of_int (10 ^ 200))]] [] (λ _, S754_zero false) 0 no_globals.


(** The namespace in which [np] alone is bound. *)
Definition numpy_imported : globals := Globals true None None None None.

(** The buffer [[0, 1], [1, 0]]. *)
Definition swap_buffer : cmatrix :=
  [[Complex.zero; Complex.one]; [Complex.one; Complex.zero]].


(** The double-valued buffer [m] has [n] rows of [n] elements. *)
Definition shaped (n : nat) (m : cmatrix128) : Prop :=
  length m = n ∧ Forall (λ row, length row = n) m.

(** The double that holds the bit [b]: [1+0j] or [0+0j]. *)
Definition bit128 (b : bool) : Complex128.t :=
  Complex128.of_complex (Complex.of_bool b).

(** The element [generate_dense_matrix] makes of two draws [x] and [y]:
    each part is 1 when the draw exceeds the threshold and 0 otherwise. *)
Definition dense_entry (threshold x y : spec_float) : Complex.t :=
  Complex.mk (Z.b2z (Float64.gt x threshold)) (Z.b2z (Float64.gt y threshold)).

(** The [n] by [n] buffer [generate_dense_matrix] makes of the [2 * n * n]
    draws that follow position [pos] of [stream]: the first [n * n] decide
    the real parts, the next [n * n] the imaginary parts, row by row. *)
Definition dense_buffer (threshold : spec_float) (stream : nat → spec_float)
    (pos n : nat) : cmatrix :=
  (λ i, (λ j, dense_entry threshold
                (stream (pos + i * n + j)%nat)
                (stream (pos + n * n + i * n + j)%nat)) <$> seq 0 n) <$> seq 0 n.

(** [s'] holds every object of [s] with the content it has in [s], possibly
    next to new objects. *)
Definition store_extends (s s' : state) : Prop :=
  lists s `prefix_of` lists s' ∧ arrays s `prefix_of` arrays s'.

(** Moreover [s'] has the random source and the namespace of [s]. *)
Definition extends (s s' : state) : Prop :=
  store_extends s s' ∧
  rng_stream s' = rng_stream s ∧ rng_pos s' = rng_pos s ∧ env s' = env s.

(** What a squaring function may do to the list [xs] it is given as [l] in
    state [s]: return a list that did not exist in [s], or raise
    OverflowError.  Either way [l] holds [xs] afterwards, every other object
    of [s] is as it was, and so are the random source and the namespace. *)
Definition list_frame (s : state) (l : list_ref) (xs : list scalar)
    (o : outcome list_ref) : Prop :=
  match o with
  | Ok out s' =>
      lists s' !! list_addr l = Some xs ∧ extends s s' ∧
      lists s !! list_addr out = None ∧ is_Some (lists s' !! list_addr out)
  | Raise e s' =>
      e = OverflowError ∧ lists s' !! list_addr l = Some xs ∧ extends s s'
  | OutOfFuel => False
  end.

(** The same for the array [arr] given as [a]. *)
Definition array_frame (s : state) (a : array_ref) (arr : ndarray)
    (o : outcome array_ref) : Prop :=
  match o with
  | Ok out s' =>
      arrays s' !! array_addr a = Some arr ∧ extends s s' ∧
      arrays s !! array_addr out = None ∧ is_Some (arrays s' !! array_addr out)
  | Raise e s' =>
      e = OverflowError ∧ arrays s' !! array_addr a = Some arr ∧ extends s s'
  | OutOfFuel => False
  end.

(** The namespace [g] with the data names rebound as in [names]; the name
    [np] stays as it is. *)
Definition rebind_data (names g : globals) : globals :=
  Globals (np g) (prebuilt_array names) (prebuilt_list names)
          (big_ndarray names) (big_matrix names).

(** What lies outside the object store, the name [np] apart: the random
    source and the data names. *)
Record ambient := Ambient {
  amb_stream : nat → spec_float;
  amb_pos : nat;
  amb_names : globals }.

Definition with_ambient (amb : ambient) (s : state) : state :=
  State (lists s) (arrays s) (amb_stream amb) (amb_pos amb)
        (rebind_data (amb_names amb) (env s)).

Definition outcome_map {A} (f : state → state) (o : outcome A) : outcome A :=
  match o with
  | Ok a s => Ok a (f s)
  | Raise e s => Raise e (f s)
  | OutOfFuel => OutOfFuel
  end.

(** A computation is oblivious when it neither reads nor writes the random
    source or a data name: run with another random source and other data
    names, it does the same to the store and hands both back as they
    were. *)
Definition oblivious {A} (m : M A) : Prop :=
  ∀ amb s, m (with_ambient amb s) = outcome_map (with_ambient amb) (m s).

(** What lies outside the random source, the name [np] apart: the object
    store and the data names. *)
Record surroundings := Surroundings {
  sur_lists : list (list scalar);
  sur_arrays : list ndarray;
  sur_names : globals }.

Definition with_surroundings (sur : surroundings) (s : state) : state :=
  State (sur_lists sur) (sur_arrays sur) (rng_stream s) (rng_pos s)
        (rebind_data (sur_names sur) (env s)).

(** A computation that reads and writes the random source and neither an
    object nor a data name: among other objects and other data names it
    draws the same numbers, returns the same value, and hands objects and
    names back as they were. *)
Definition random_only {A} (m : M A) : Prop :=
  ∀ sur s, m (with_surroundings sur s) = outcome_map (with_surroundings sur) (m s).
(** * Properties *)

(** ** Exactness of the conversion of small integers to binary64 *)

Lemma digits2_pos_bounds (m : positive) :
  2 ^ (Zpos (digits2_pos m) - 1) ≤ Zpos m < 2 ^ Zpos (digits2_pos m).
Proof.
  induction m as [m IH|m IH|]; simpl digits2_pos.
  - rewrite Pos2Z.inj_succ. change (Zpos m~1) with (2 * Zpos m + 1).
    replace (Z.succ (Zpos (digits2_pos m)) - 1)
      with (Z.succ (Zpos (digits2_pos m) - 1)) by lia.
    rewrite !Z.pow_succ_r by lia.
    revert IH.
    generalize (2 ^ (Zpos (digits2_pos m) - 1)) (2 ^ Zpos (digits2_pos m)). lia.
  - rewrite Pos2Z.inj_succ. change (Zpos m~0) with (2 * Zpos m).
    replace (Z.succ (Zpos (digits2_pos m)) - 1)
      with (Z.succ (Zpos (digits2_pos m) - 1)) by lia.
    rewrite !Z.pow_succ_r by lia.
    revert IH.
    generalize (2 ^ (Zpos (digits2_pos m) - 1)) (2 ^ Zpos (digits2_pos m)). lia.
  - simpl. lia.
Qed.

Lemma Zpos_iter_xO (m k : positive) :
  Zpos (Pos.iter xO m k) = Zpos m * 2 ^ Zpos k.
Proof.
  induction k as [|k IH] using Pos.peano_ind.
  - simpl. lia.
  - rewrite Pos.iter_succ.
    change (Zpos (Pos.iter xO m k)~0) with (2 * Zpos (Pos.iter xO m k)).
    rewrite IH, Pos2Z.inj_succ, Z.pow_succ_r by lia.
    generalize (2 ^ Zpos k). lia.
Qed.

Lemma digits2_pos_iter_xO (m k : positive) :
  digits2_pos (Pos.iter xO m k) = (digits2_pos m + k)%positive.
Proof.
  induction k as [|k IH] using Pos.peano_ind.
  - simpl. lia.
  - rewrite Pos.iter_succ. simpl. rewrite IH. lia.
Qed.

Lemma digits2_pos_le_53 (m : positive) :
  Zpos m < 2 ^ 53 → Zpos (digits2_pos m) ≤ 53.
Proof.
  intros Hm. pose proof (digits2_pos_bounds m) as [Hlo _].
  destruct (Z.le_gt_cases (Zpos (digits2_pos m)) 53) as [|Hgt]; [done|].
  assert (2 ^ 53 ≤ 2 ^ (Zpos (digits2_pos m) - 1))
    by (apply Z.pow_le_mono_r; lia).
  lia.
Qed.

(** A mantissa of full width needs no rounding. *)
Lemma binary_round_aux_exact (s : bool) (m : positive) (e : Z) :
  Zpos (digits2_pos m) = 53 → -1074 ≤ e ≤ 971 →
  binary_round_aux 53 1024 s (Zpos m) e loc_Exact = S754_finite s m e.
Proof.
  intros Hd He.
  unfold binary_round_aux, shr_fexp, fexp, emin. simpl Zdigits2. rewrite Hd.
  replace (Z.max (53 + e - 53) (3 - 1024 - 53) - e) with 0 by lia.
  simpl. rewrite Hd.
  replace (Z.max (53 + e - 53) (3 - 1024 - 53) - e) with 0 by lia.
  simpl.
  destruct (e <=? 1024 - 53) eqn:E; [done|lia].
Qed.

(** Below [2^53] the conversion only shifts the integer to a 53-bit
    mantissa. *)
Lemma of_int_small (m : positive) :
  Zpos m < 2 ^ 53 →
  Float64.of_int (Zpos m) =
    S754_finite false
      (match (53 - Zpos (digits2_pos m))%Z with
       | Zpos k => Pos.iter xO m k
       | _ => m
       end)
      (Zpos (digits2_pos m) - 53).
Proof.
  intros Hm. pose proof (digits2_pos_le_53 m Hm) as Hd.
  unfold Float64.of_int, binary_normalize, binary_round, Float64.prec, Float64.emax.
  unfold shl_align, fexp, emin.
  replace (Z.max (Zpos (digits2_pos m) + 0 - 53) (3 - 1024 - 53) - 0)
    with (Zpos (digits2_pos m) - 53) by lia.
  replace (Z.max (Zpos (digits2_pos m) + 0 - 53) (3 - 1024 - 53))
    with (Zpos (digits2_pos m) - 53) by lia.
  destruct (Zpos (digits2_pos m) - 53) as [|k|k] eqn:Ek; [|lia|].
  - replace (53 - Zpos (digits2_pos m)) with 0 by lia.
    rewrite binary_round_aux_exact by lia. done.
  - replace (53 - Zpos (digits2_pos m)) with (Zpos k) by lia.
    rewrite binary_round_aux_exact; [done| |lia].
    rewrite digits2_pos_iter_xO. lia.
Qed.

(** Every integer from 0 to [2^53] is converted without error. *)
Lemma of_int_exact (z : Z) :
  0 ≤ z ≤ 2 ^ 53 → Float64.eq_int (Float64.of_int z) z = true.
Proof.
  intros Hz. destruct (decide (z = 2 ^ 53)) as [->|Hne]; [by vm_compute|].
  destruct z as [|m|m]; [done| |lia].
  assert (Hm : Zpos m < 2 ^ 53) by lia.
  rewrite of_int_small by done.
  pose proof (digits2_pos_le_53 m Hm) as Hd.
  unfold Float64.eq_int, cond_Zopp.
  destruct (53 - Zpos (digits2_pos m)) as [|k|k] eqn:Ek; [| |lia].
  - replace (Zpos (digits2_pos m) - 53) with 0 by lia.
    change (0 <=? 0) with true. cbv iota. apply Z.eqb_eq.
    change (2 ^ 0) with 1. lia.
  - destruct (0 <=? Zpos (digits2_pos m) - 53) eqn:E; [lia|].
    rewrite Zpos_iter_xO.
    replace (- (Zpos (digits2_pos m) - 53)) with (Zpos k) by lia.
    apply Z.eqb_eq. done.
Qed.

(** [2^53 + 1] is the first integer that is not: it lies half way between
    two doubles and is rounded to the even one, [2^53]. *)
Lemma of_int_2p53_plus_1 :
  Float64.of_int (2 ^ 53 + 1) = Float64.of_int (2 ^ 53) ∧
  Float64.eq_int (Float64.of_int (2 ^ 53 + 1)) (2 ^ 53 + 1) = false.
Proof. by vm_compute. Qed.

(** ** The monad *)

Lemma bind_Ok {A B} (m : M A) (f : A → M B) (s s' : state) (a : A) :
  m s = Ok a s' → (m ≫= f) s = f a s'.
Proof. unfold mbind, M_bind. by intros ->. Qed.

Lemma set_lists_id (s : state) : set_lists (lists s) s = s.
Proof. by destruct s. Qed.

Lemma set_arrays_id (s : state) : set_arrays (arrays s) s = s.
Proof. by destruct s. Qed.

#[global] Instance store_extends_preorder : PreOrder store_extends.
Proof.
  split.
  - by intros s.
  - intros s1 s2 s3 [H1 H2] [H3 H4]. split; by etrans.
Qed.

#[global] Instance extends_preorder : PreOrder extends.
Proof.
  split.
  - by intros s.
  - intros s1 s2 s3 (H1 & H2 & H3 & H4) (H5 & H6 & H7 & H8).
    split; [by etrans|]. split_and!; congruence.
Qed.

Lemma extends_lists (s s' : state) (l : list_ref) (xs : list scalar) :
  store_extends s s' → lists s !! list_addr l = Some xs →
  lists s' !! list_addr l = Some xs.
Proof. intros [H _] Hl. by eapply prefix_lookup_Some. Qed.

Lemma extends_arrays (s s' : state) (a : array_ref) (arr : ndarray) :
  store_extends s s' → arrays s !! array_addr a = Some arr →
  arrays s' !! array_addr a = Some arr.
Proof. intros [_ H] Ha. by eapply prefix_lookup_Some. Qed.

(** ** Loops that fill a list *)

Lemma list_append_run (out : list_ref) (x : scalar) (items : list scalar) (s : state) :
  lists s !! list_addr out = Some items →
  list_append out x s =
    Ok tt (set_lists (<[list_addr out := items ++ [x]]> (lists s)) s).
Proof. intros H. unfold list_append, mbind, M_bind, read_list. by rewrite H. Qed.

Lemma for_range_list_append (xs : list Z) (out : list_ref) (items : list scalar) (s : state) :
  lists s !! list_addr out = Some items →
  for_range xs (λ i _, list_append out (PyInt i)) tt s =
    Ok tt (set_lists (<[list_addr out := items ++ (PyInt <$> xs)]> (lists s)) s).
Proof.
  revert items s. induction xs as [|i xs IH]; intros items s Hout; simpl.
  - rewrite app_nil_r, list_insert_id, set_lists_id by done. done.
  - erewrite bind_Ok by (by apply list_append_run).
    rewrite (IH (items ++ [PyInt i])).
    + simpl. by rewrite list_insert_insert_eq, <- app_assoc.
    + simpl. apply list_lookup_insert_eq. by eapply lookup_lt_Some.
Qed.

Lemma bind_Raise {A B} (m : M A) (f : A → M B) (s s' : state) (e : exn) :
  m s = Raise e s' → (m ≫= f) s = Raise e s'.
Proof. unfold mbind, M_bind. by intros ->. Qed.

Lemma insert_fresh_list {A} (ls : list A) (x y : A) :
  <[length ls := y]> (ls ++ [x]) = ls ++ [y].
Proof. rewrite insert_app_r_alt by done. by rewrite Nat.sub_diag. Qed.

Lemma lookup_fresh_list {A} (ls : list A) (x : A) : (ls ++ [x]) !! length ls = Some x.
Proof. by rewrite list_lookup_middle. Qed.

Lemma extends_set_lists (s : state) (items : list scalar) :
  extends s (set_lists (lists s ++ [items]) s).
Proof. repeat split; simpl; try done. by apply prefix_app_r. Qed.

Lemma extends_set_arrays (s : state) (a : ndarray) :
  extends s (set_arrays (arrays s ++ [a]) s).
Proof. repeat split; simpl; try done. by apply prefix_app_r. Qed.

(** ** The squares of a list *)

Section squares.

Context {libm : Libm}.

(** [pow2] computes the square the specification means, and fails exactly
    where there is none. *)
Lemma pow2_square_of (x y : scalar) : pow2 x = Some y ↔ square_of x y.
Proof.
  split.
  - destruct x as [z|x|x|z]; simpl.
    + intros [= <-]. rewrite Z.pow_2_r. constructor.
    + destruct (float_pow2 x) as [r|] eqn:Hr; [|done].
      intros [= <-]. by constructor.
    + intros [= <-]. constructor.
    + intros [= <-]. rewrite Z.pow_2_r. constructor.
  - intros [z|z|x'|x' y' Hy]; simpl; rewrite ?Z.pow_2_r; try done.
    by rewrite Hy.
Qed.

Lemma pow2_None (x : scalar) : pow2 x = None ↔ ¬ has_square x.
Proof.
  split.
  - intros Hx [y Hy%pow2_square_of]. congruence.
  - intros Hx. destruct (pow2 x) as [y|] eqn:Hy; [|done].
    destruct Hx. exists y. by apply pow2_square_of.
Qed.

Lemma mapM_pow2_squares (xs ys : list scalar) :
  mapM pow2 xs = Some ys ↔ Forall2 square_of xs ys.
Proof.
  rewrite mapM_Some.
  split; intros H; (eapply Forall2_impl; [exact H|]); intros x y; apply pow2_square_of.
Qed.

Lemma mapM_pow2_None (xs : list scalar) :
  mapM pow2 xs = None ↔ ¬ Forall has_square xs.
Proof.
  rewrite mapM_None. split.
  - intros Hex Hall. apply Exists_exists in Hex as (x & Hx & Hnone).
    apply pow2_None in Hnone. apply Hnone. by eapply Forall_forall in Hall.
  - intros Hall. induction xs as [|x xs IH]; [by destruct Hall|].
    destruct (pow2 x) as [y|] eqn:Hy; [|by left].
    right. apply IH. intros Hxs. apply Hall. constructor; [|done].
    exists y. by apply pow2_square_of.
Qed.

Lemma mapM_pow2_fmap {A} (f : A → scalar) (g : A → scalar) (l : list A) :
  (∀ a, pow2 (f a) = Some (g a)) → mapM pow2 (f <$> l) = Some (g <$> l).
Proof.
  intros Hfg. apply mapM_Some, Forall2_fmap, Forall_Forall2_diag, Forall_forall.
  intros a _. apply Hfg.
Qed.

Lemma mapM_pow2_ints (zs : list Z) :
  mapM pow2 (PyInt <$> zs) = Some (PyInt <$> ((λ z, z * z) <$> zs)).
Proof.
  rewrite <- list_fmap_compose. apply mapM_pow2_fmap.
  intros z. simpl. by rewrite Z.pow_2_r.
Qed.


Lemma mapM_pow2_float64s (data : list spec_float) :
  mapM pow2 (NpFloat64 <$> data) = Some (NpFloat64 <$> (libm_pow_2 <$> data)).
Proof. rewrite <- list_fmap_compose. by apply mapM_pow2_fmap. Qed.

Lemma mapM_pow2_length (xs ys : list scalar) :
  mapM pow2 xs = Some ys → length ys = length xs.
Proof. intros H%mapM_Some%Forall2_length. done. Qed.

(** ** Loops that fill a list with squares *)

Lemma for_in_step (fuel : nat) (l : list_ref) (k : nat) (body : scalar → M unit)
    (xs : list scalar) (s : state) :
  lists s !! list_addr l = Some xs →
  for_in (S fuel) l k body s =
    match xs !! k with
    | None => Ok tt s
    | Some x => (body x;; for_in fuel l (S k) body) s
    end.
Proof.
  intros Hl. cbn [for_in]. unfold mbind at 1, M_bind at 1, read_list at 1.
  rewrite Hl. by destruct (xs !! k).
Qed.

Lemma square_then_append (out : list_ref) (x : scalar) (acc : list scalar) (s : state) :
  lists s !! list_addr out = Some acc →
  (square ← or_raise OverflowError (pow2 x); list_append out square) s =
    match pow2 x with
    | Some y => Ok tt (set_lists (<[list_addr out := acc ++ [y]]> (lists s)) s)
    | None => Raise OverflowError s
    end.
Proof.
  intros Hout. unfold mbind at 1, M_bind at 1.
  destruct (pow2 x) as [y|]; cbn [or_raise mret M_ret raise]; [|done].
  by apply list_append_run.
Qed.

(** The loop of the list functions: it appends the squares one by one, and
    stops with an OverflowError at the first element that has none, leaving
    in [out] the squares appended so far. *)
Lemma for_in_squares (fuel : nat) (l out : list_ref) (xs acc : list scalar)
    (k : nat) (s : state) :
  list_addr l ≠ list_addr out →
  lists s !! list_addr l = Some xs →
  lists s !! list_addr out = Some acc →
  (length xs - k < fuel)%nat →
  match mapM pow2 (drop k xs) with
  | Some ys =>
      for_in fuel l k
        (λ x, square ← or_raise OverflowError (pow2 x); list_append out square) s =
      Ok tt (set_lists (<[list_addr out := acc ++ ys]> (lists s)) s)
  | None =>
      ∃ acc',
        for_in fuel l k
          (λ x, square ← or_raise OverflowError (pow2 x); list_append out square) s =
        Raise OverflowError (set_lists (<[list_addr out := acc']> (lists s)) s)
  end.
Proof.
  intros Hne. revert k acc s.
  induction fuel as [|fuel IH]; intros k acc s Hl Hout Hfuel; [lia|].
  match goal with
  | |- context [for_in _ _ _ ?b _] =>
      assert (Hrun : for_in (S fuel) l k b s =
        match xs !! k with
        | None => Ok tt s
        | Some x =>
            match pow2 x with
            | Some y =>
                for_in fuel l (S k) b
                  (set_lists (<[list_addr out := acc ++ [y]]> (lists s)) s)
            | None => Raise OverflowError s
            end
        end)
  end.
  { rewrite (for_in_step fuel l k _ xs s Hl).
    destruct (xs !! k) as [x|]; [|done].
    unfold mbind at 1, M_bind at 1. cbv beta.
    rewrite (square_then_append out x acc s Hout). by destruct (pow2 x). }
  rewrite Hrun. clear Hrun.
  destruct (xs !! k) as [x|] eqn:Hk.
  - rewrite (drop_S _ _ _ Hk). csimpl.
    destruct (pow2 x) as [y|] eqn:Hy; csimpl.
    + specialize (IH (S k) (acc ++ [y])
                    (set_lists (<[list_addr out := acc ++ [y]]> (lists s)) s)).
      cbn [lists set_lists] in IH.
      rewrite list_lookup_insert_ne in IH by done.
      rewrite list_lookup_insert_eq in IH by (by eapply lookup_lt_Some).
      specialize (IH Hl eq_refl).
      assert (Hfuel' : (length xs - S k < fuel)%nat).
      { apply lookup_lt_Some in Hk. lia. }
      specialize (IH Hfuel').
      destruct (mapM pow2 (drop (S k) xs)) as [ys|]; csimpl.
      * rewrite IH. unfold set_lists. cbn.
        by rewrite list_insert_insert_eq, <- app_assoc.
      * destruct IH as [acc' IH]. exists acc'. rewrite IH.
        unfold set_lists. cbn. by rewrite list_insert_insert_eq.
    + exists acc. by rewrite list_insert_id, set_lists_id.
  - apply lookup_ge_None in Hk. rewrite drop_ge by done. csimpl.
    by rewrite app_nil_r, list_insert_id, set_lists_id.
Qed.

(** ** What the benchmark functions compute *)

Lemma build_list_run (count : Z) (s : state) :
  build_list count s =
    Ok (ListRef (length (lists s)))
       (set_lists (lists s ++ [PyInt <$> range count]) s).
Proof.
  unfold build_list.
  erewrite bind_Ok by reflexivity.
  erewrite bind_Ok.
  2:{ apply for_range_list_append with (items := []). simpl. apply lookup_fresh_list. }
  simpl. by rewrite insert_fresh_list.
Qed.

(** A list function returns the squares in a new list, or raises
    OverflowError and leaves a new list of the squares it got to. *)
Lemma square_all_list_run (fuel : nat) (l : list_ref) (xs : list scalar) (s : state) :
  lists s !! list_addr l = Some xs → (length xs < fuel)%nat →
  match mapM pow2 xs with
  | Some ys =>
      square_all_list fuel l s =
        Ok (ListRef (length (lists s))) (set_lists (lists s ++ [ys]) s)
  | None =>
      ∃ acc, square_all_list fuel l s =
               Raise OverflowError (set_lists (lists s ++ [acc]) s)
  end.
Proof.
  intros Hl Hfuel. unfold square_all_list.
  erewrite bind_Ok by reflexivity.
  pose proof (for_in_squares fuel l (ListRef (length (lists s))) xs [] 0
                (set_lists (lists s ++ [[]]) s)) as Hloop.
  cbn [lists set_lists list_addr] in Hloop.
  rewrite drop_0 in Hloop.
  specialize (Hloop ltac:(apply lookup_lt_Some in Hl; lia)
                    ltac:(by apply lookup_app_l_Some)
                    ltac:(apply lookup_fresh_list) ltac:(lia)).
  destruct (mapM pow2 xs) as [ys|].
  - erewrite bind_Ok by exact Hloop. simpl. by rewrite insert_fresh_list.
  - destruct Hloop as [acc Hloop]. exists acc.
    erewrite bind_Raise by exact Hloop. simpl. by rewrite insert_fresh_list.
Qed.

Lemma square_list_FL_run (fuel : nat) (l : list_ref) (xs : list scalar) (s : state) :
  lists s !! list_addr l = Some xs → (length xs < fuel)%nat →
  match mapM pow2 xs with
  | Some ys =>
      square_list_FL fuel l s =
        Ok (ListRef (length (lists s))) (set_lists (lists s ++ [ys]) s)
  | None =>
      ∃ acc, square_list_FL fuel l s =
               Raise OverflowError (set_lists (lists s ++ [acc]) s)
  end.
Proof. apply square_all_list_run. Qed.

Lemma square_list_LC_run (l : list_ref) (xs : list scalar) (s : state) :
  lists s !! list_addr l = Some xs →
  square_list_LC l s =
    match mapM pow2 xs with
    | Some ys => Ok (ListRef (length (lists s))) (set_lists (lists s ++ [ys]) s)
    | None => Raise OverflowError s
    end.
Proof.
  intros Hl. unfold square_list_LC, mbind, M_bind, read_list. rewrite Hl.
  by destruct (mapM _ xs).
Qed.

Lemma square_all_array_run (a : array_ref) (arr : ndarray) (s : state) :
  arrays s !! array_addr a = Some arr →
  square_all_array a s =
    match ndarray_pow2 arr with
    | Some squares =>
        Ok (ArrayRef (length (arrays s))) (set_arrays (arrays s ++ [squares]) s)
    | None => Raise OverflowError s
    end.
Proof.
  intros Ha. unfold square_all_array, mbind, M_bind, read_array. rewrite Ha.
  by destruct (ndarray_pow2 arr).
Qed.

(** The list functions return when every element has a square. *)
Lemma square_all_list_returns (fuel : nat) (l : list_ref) (xs ys : list scalar) (s : state) :
  lists s !! list_addr l = Some xs → (length xs < fuel)%nat →
  mapM pow2 xs = Some ys →
  square_all_list fuel l s =
    Ok (ListRef (length (lists s))) (set_lists (lists s ++ [ys]) s).
Proof.
  intros Hl Hfuel Hys. pose proof (square_all_list_run fuel l xs s Hl Hfuel) as H.
  by rewrite Hys in H.
Qed.

Lemma square_list_FL_returns (fuel : nat) (l : list_ref) (xs ys : list scalar) (s : state) :
  lists s !! list_addr l = Some xs → (length xs < fuel)%nat →
  mapM pow2 xs = Some ys →
  square_list_FL fuel l s =
    Ok (ListRef (length (lists s))) (set_lists (lists s ++ [ys]) s).
Proof. apply square_all_list_returns. Qed.

Lemma square_list_LC_returns (l : list_ref) (xs ys : list scalar) (s : state) :
  lists s !! list_addr l = Some xs → mapM pow2 xs = Some ys →
  square_list_LC l s =
    Ok (ListRef (length (lists s))) (set_lists (lists s ++ [ys]) s).
Proof. intros Hl Hys. by rewrite (square_list_LC_run l xs s Hl), Hys. Qed.

Lemma square_all_array_returns (a : array_ref) (arr squares : ndarray) (s : state) :
  arrays s !! array_addr a = Some arr → ndarray_pow2 arr = Some squares →
  square_all_array a s =
    Ok (ArrayRef (length (arrays s))) (set_arrays (arrays s ++ [squares]) s).
Proof. intros Ha Hsq. by rewrite (square_all_array_run a arr s Ha), Hsq. Qed.



End squares.
(** ** Growing an array with [np.append] *)

Lemma np_append_run (out : array_ref) (z : Z) (a : ndarray) (s : state) :
  arrays s !! array_addr out = Some a →
  np_append out z s =
    Ok (ArrayRef (length (arrays s)))
       (set_arrays (arrays s ++ [np_append_int a z]) s).
Proof.
  intros Ha. unfold np_append, mbind, M_bind, read_array. by rewrite Ha.
Qed.

(** The loop of [build_array] leaves the arrays it finds alone, adds one
    array per iteration, and ends with [out] naming the last one. *)
Lemma for_range_np_append (zs : list Z) (out : array_ref) (a : ndarray) (s : state) :
  arrays s !! array_addr out = Some a →
  ∃ out',
    for_range zs (λ i out, np_append out i) out s =
      Ok out' (set_arrays (arrays s ++ append_trace a zs) s) ∧
    (arrays s ++ append_trace a zs) !! array_addr out' =
      Some (foldl np_append_int a zs).
Proof.
  revert out a s. induction zs as [|z zs IH]; intros out a s Ha; simpl.
  - exists out. rewrite app_nil_r, set_arrays_id. done.
  - erewrite bind_Ok by (by apply np_append_run).
    destruct (IH (ArrayRef (length (arrays s))) (np_append_int a z)
                (set_arrays (arrays s ++ [np_append_int a z]) s))
      as (out' & Hrun & Hout').
    { simpl. apply lookup_fresh_list. }
    exists out'. rewrite Hrun. simpl in *.
    rewrite <- app_assoc in Hout' |- *. done.
Qed.

Lemma build_array_run (count : Z) (s : state) :
  ∃ out,
    build_array count s = Ok out (after_build_array count s) ∧
    arrays (after_build_array count s) !! array_addr out =
      Some (foldl np_append_int (F64 []) (range count)).
Proof.
  unfold build_array.
  erewrite bind_Ok by reflexivity.
  destruct (for_range_np_append (range count)
              (ArrayRef (length (arrays s))) (F64 [])
              (set_arrays (arrays s ++ [F64 []]) (set_lists (lists s ++ [[]]) s)))
    as (out & Hrun & Hout).
  { simpl. apply lookup_fresh_list. }
  exists out. erewrite bind_Ok by exact Hrun.
  simpl in *. rewrite <- app_assoc in Hout |- *. done.
Qed.

(** As long as the appended integers fit in 64 bits the array stays a
    [float64] array and takes every integer rounded to a double. *)
Lemma foldl_np_append_int_F64 (zs : list Z) (data : list spec_float) :
  Forall (λ z, - 2 ^ 63 ≤ z < 2 ^ 64) zs →
  foldl np_append_int (F64 data) zs = F64 (data ++ (Float64.of_int <$> zs)).
Proof.
  revert data. induction zs as [|z zs IH]; intros data Hzs; simpl.
  - by rewrite app_nil_r.
  - apply Forall_cons in Hzs as [Hz Hzs].
    unfold np_append_int at 2. rewrite bool_decide_true by done.
    rewrite IH, <- app_assoc by done. done.
Qed.

Lemma range_bounds (count : Z) : Forall (λ z, 0 ≤ z < count) (range count).
Proof.
  apply Forall_forall. intros z Hz. apply elem_of_seqZ in Hz. lia.
Qed.

Lemma build_array_content (count : Z) :
  count ≤ 2 ^ 64 →
  foldl np_append_int (F64 []) (range count) = F64 (Float64.of_int <$> range count).
Proof.
  intros Hc. apply foldl_np_append_int_F64.
  eapply Forall_impl; [apply range_bounds|]. simpl. lia.
Qed.

Lemma result_array_build_array (count : Z) (s : state) :
  result_array (build_array count s) =
    Some (foldl np_append_int (F64 []) (range count)).
Proof.
  destruct (build_array_run count s) as (out & -> & Hout). done.
Qed.

Lemma result_list_build_list (count : Z) (s : state) :
  result_list (build_list count s) = Some (PyInt <$> range count).
Proof. rewrite build_list_run. simpl. apply lookup_fresh_list. Qed.

(** ** The growth benchmark *)

Lemma equals_range_ints (count : Z) : equals_range (PyInt <$> range count) count.
Proof.
  unfold equals_range. apply Forall2_fmap_l, Forall_Forall2_diag, Forall_forall.
  intros z _. simpl. lia.
Qed.

Lemma equals_range_floats (count : Z) :
  count ≤ 2 ^ 53 + 1 →
  Forall2 (λ x i, Float64.eq_int x i = true) (Float64.of_int <$> range count) (range count).
Proof.
  intros Hc. apply Forall2_fmap_l, Forall_Forall2_diag.
  eapply Forall_impl; [apply range_bounds|].
  intros z Hz. simpl in Hz. apply of_int_exact. lia.
Qed.

Lemma range_lookup_last (c : Z) : 0 ≤ c → range (c + 1) !! Z.to_nat c = Some c.
Proof.
  intros Hc. unfold range. rewrite lookup_seqZ_lt by lia. f_equal. lia.
Qed.

(** The last element of [build_array(c + 1)] is [c] rounded to a double. *)
Lemma build_array_last (c : Z) (s : state) :
  0 ≤ c < 2 ^ 64 →
  ∃ data,
    result_array (build_array (c + 1) s) = Some (F64 data) ∧
    data !! Z.to_nat c = Some (Float64.of_int c).
Proof.
  intros Hc. exists (Float64.of_int <$> range (c + 1)). split.
  - rewrite result_array_build_array, build_array_content by lia. reflexivity.
  - rewrite list_lookup_fmap, range_lookup_last by lia. reflexivity.
Qed.

(** Past [2^53 + 1] elements the last integer appended is no longer a
    double: the array built for [2^53 + 2] ends with [2^53] twice. *)
Lemma build_array_rounds (s : state) :
  ∃ data,
    result_array (build_array (2 ^ 53 + 2) s) = Some (F64 data) ∧
    data !! Z.to_nat (2 ^ 53 + 1) = Some (Float64.of_int (2 ^ 53 + 1)) ∧
    range (2 ^ 53 + 2) !! Z.to_nat (2 ^ 53 + 1) = Some (2 ^ 53 + 1).
Proof.
  assert (Hc : 0 ≤ 2 ^ 53 + 1 < 2 ^ 64) by lia.
  destruct (build_array_last (2 ^ 53 + 1) s Hc) as (data & Hdata & Hlast).
  exists data. split_and!; [exact Hdata|exact Hlast|].
  exact (range_lookup_last (2 ^ 53 + 1) (proj1 Hc)).
Qed.

(** C4, as amended: [build_list(n)] is [range(n)] for every [n], and
    [build_array(count)] is equal element for element to [range(count)] as
    long as [count] is at most [2^53 + 1], so that every appended integer is
    a double; [build_list(5)] is [[0, 1, 2, 3, 4]]. *)
Theorem build_equals_range (n count : Z) (s : state) :
  count ≤ 2 ^ 53 + 1 →
  (∃ xs, result_list (build_list n s) = Some xs ∧
         xs = PyInt <$> range n ∧ equals_range xs n) ∧
  (∃ arr, result_array (build_array count s) = Some arr ∧
          equals_range (tolist arr) count) ∧
  result_list (build_list 5 s) = Some [PyInt 0; PyInt 1; PyInt 2; PyInt 3; PyInt 4].
Proof.
  intros Hc. split_and!.
  - exists (PyInt <$> range n). split_and!; [|done|].
    + apply result_list_build_list.
    + apply equals_range_ints.
  - exists (F64 (Float64.of_int <$> range count)). split.
    + rewrite result_array_build_array, build_array_content by lia. done.
    + unfold equals_range. simpl. apply Forall2_fmap_l.
      by apply equals_range_floats.
  - by rewrite result_list_build_list.
Qed.

Lemma build_equals_range_witness :
  3 ≤ 2 ^ 53 + 1 ∧
  (∃ xs, result_list (build_list 4 demo_state) = Some xs ∧
         xs = PyInt <$> range 4 ∧ equals_range xs 4) ∧
  (∃ arr, result_array (build_array 3 demo_state) = Some arr ∧
          equals_range (tolist arr) 3) ∧
  result_list (build_list 5 demo_state) =
    Some [PyInt 0; PyInt 1; PyInt 2; PyInt 3; PyInt 4].
Proof.
  split; [lia|]. apply (build_equals_range 4 3 demo_state). lia.
Defined.

(** C4, as stated, fails for [build_array] at [count = 2^53 + 2]: the
    element at position [2^53 + 1] is the double [2^53], which is not equal
    to the integer [2^53 + 1] of [range(count)]. *)
Lemma build_array_differs_from_range :
  ∃ arr,
    result_array (build_array (2 ^ 53 + 2) demo_state) = Some arr ∧
    ¬ equals_range (tolist arr) (2 ^ 53 + 2).
Proof.
  destruct (build_array_rounds demo_state) as (data & Hdata & Hlast & Hi).
  exists (F64 data). split; [exact Hdata|]. intros Heq.
  unfold equals_range in Heq. simpl in Heq.
  eapply Forall2_lookup_lr in Heq; [| |exact Hi].
  2:{ rewrite list_lookup_fmap, Hlast. reflexivity. }
  simpl in Heq.
  destruct of_int_2p53_plus_1 as [_ Hne]. congruence.
Qed.

Lemma same_value_other_type_floats (count : Z) :
  count ≤ 2 ^ 53 + 1 →
  Forall2 same_value_other_type
    (tolist (F64 (Float64.of_int <$> range count))) (PyInt <$> range count).
Proof.
  intros Hc. simpl. apply Forall2_fmap, Forall2_fmap_l, Forall_Forall2_diag.
  eapply Forall_impl; [apply range_bounds|].
  intros z Hz. simpl in Hz. split; [done|].
  exists z. split; [done|]. simpl. apply of_int_exact. lia.
Qed.

(** C10, as amended: [build_array(count)] is a [float64] buffer although the
    appended values are Python ints, and for every [count] up to [2^53 + 1]
    it agrees with [build_list(count)] in numeric value at every position,
    exactly, while the element types differ. *)
Theorem build_array_is_float_copy (count : Z) (s : state) :
  count ≤ 2 ^ 53 + 1 →
  ∃ data xs,
    result_array (build_array count s) = Some (F64 data) ∧
    result_list (build_list count s) = Some xs ∧
    data = Float64.of_int <$> range count ∧
    Forall2 same_value_other_type (tolist (F64 data)) xs.
Proof.
  intros Hc.
  exists (Float64.of_int <$> range count), (PyInt <$> range count). split_and!.
  - rewrite result_array_build_array, build_array_content by lia. done.
  - apply result_list_build_list.
  - done.
  - by apply same_value_other_type_floats.
Qed.

Lemma build_array_is_float_copy_witness :
  4 ≤ 2 ^ 53 + 1 ∧
  ∃ data xs,
    result_array (build_array 4 demo_state) = Some (F64 data) ∧
    result_list (build_list 4 demo_state) = Some xs ∧
    data = Float64.of_int <$> range 4 ∧
    Forall2 same_value_other_type (tolist (F64 data)) xs.
Proof.
  split; [lia|]. apply (build_array_is_float_copy 4 demo_state). lia.
Defined.

(** C10, as stated, fails at [count = 2^53 + 2]: at position [2^53 + 1]
    [build_list] holds [2^53 + 1] and [build_array] holds [2^53]. *)
Lemma build_array_value_differs :
  ∃ arr xs,
    result_array (build_array (2 ^ 53 + 2) demo_state) = Some arr ∧
    result_list (build_list (2 ^ 53 + 2) demo_state) = Some xs ∧
    ¬ Forall2 same_value_other_type (tolist arr) xs.
Proof.
  destruct (build_array_rounds demo_state) as (data & Hdata & Hlast & Hi).
  exists (F64 data), (PyInt <$> range (2 ^ 53 + 2)).
  split_and!; [exact Hdata|apply result_list_build_list|]. intros Heq.
  eapply Forall2_lookup_lr in Heq.
  2:{ simpl. rewrite list_lookup_fmap, Hlast. reflexivity. }
  2:{ rewrite list_lookup_fmap, Hi. reflexivity. }
  destruct Heq as (_ & z & [= <-] & Heq). simpl in Heq.
  destruct of_int_2p53_plus_1 as [_ Hne]. congruence.
Qed.

(** C7: [build_list] and [build_array] have no failure path; whatever the
    size parameter and the state, each returns a sequence. *)
Theorem build_never_fails (count : Z) (s : state) :
  (∃ out s', build_list count s = Ok out s' ∧ is_Some (lists s' !! list_addr out)) ∧
  (∃ out s', build_array count s = Ok out s' ∧ is_Some (arrays s' !! array_addr out)).
Proof.
  split.
  - eexists _, _. split; [apply build_list_run|].
    simpl. rewrite lookup_fresh_list. by eexists.
  - destruct (build_array_run count s) as (out & Hrun & Hout).
    eexists _, _. split; [exact Hrun|]. by eexists.
Qed.

(** ** The squaring benchmarks *)





Lemma wrap64_small (z : Z) : - 2 ^ 63 ≤ z < 2 ^ 63 → wrap64 z = z.
Proof. intros Hz. unfold wrap64. rewrite Z.mod_small by lia. lia. Qed.





(** C5: on the sequence 0, 1, 2, 3 every squaring function returns
    0, 1, 4, 9: the three list functions on the list, and
    [square_all_array] on the array of the four numbers, be it of type
    [int64] or [float64]. *)
Theorem squares_of_0_1_2_3 {libm : Libm} :
  result_list (square_all_list 5 (ListRef 0) demo_state) =
    Some [PyInt 0; PyInt 1; PyInt 4; PyInt 9] ∧
  result_list (square_list_FL 5 (ListRef 0) demo_state) =
    Some [PyInt 0; PyInt 1; PyInt 4; PyInt 9] ∧
  result_list (square_list_LC (ListRef 0) demo_state) =
    Some [PyInt 0; PyInt 1; PyInt 4; PyInt 9] ∧
  result_array (square_all_array (ArrayRef 0) demo_state) =
    Some (I64 [0; 1; 4; 9]) ∧
  result_array (square_all_array (ArrayRef 1) demo_state) =
    Some (F64 (Float64.of_int <$> [0; 1; 4; 9])).
Proof. split_and!; by vm_compute. Qed.

Lemma list_frame_returned (s : state) (l : list_ref) (xs ys : list scalar) :
  lists s !! list_addr l = Some xs →
  list_frame s l xs (Ok (ListRef (length (lists s))) (set_lists (lists s ++ [ys]) s)).
Proof.
  intros Hl. cbn [list_frame list_addr lists set_lists]. split_and!.
  - by apply lookup_app_l_Some.
  - apply extends_set_lists.
  - by apply lookup_ge_None.
  - rewrite lookup_fresh_list. by eexists.
Qed.

Lemma list_frame_raised (s : state) (l : list_ref) (xs acc : list scalar) :
  lists s !! list_addr l = Some xs →
  list_frame s l xs (Raise OverflowError (set_lists (lists s ++ [acc]) s)).
Proof.
  intros Hl. cbn [list_frame list_addr lists set_lists]. split_and!.
  - done.
  - by apply lookup_app_l_Some.
  - apply extends_set_lists.
Qed.

(** C9: no squaring function changes its argument.  Whether the call
    returns or raises OverflowError, the argument holds afterwards the
    elements it held before, in the same order; so does every other object;
    and a result is an object that did not exist before the call. *)
Theorem squaring_leaves_input_unchanged {libm : Libm} (fuel : nat) (s : state) :
  (∀ l xs, lists s !! list_addr l = Some xs → (length xs < fuel)%nat →
     list_frame s l xs (square_all_list fuel l s) ∧
     list_frame s l xs (square_list_FL fuel l s) ∧
     list_frame s l xs (square_list_LC l s)) ∧
  (∀ a arr, arrays s !! array_addr a = Some arr →
     array_frame s a arr (square_all_array a s)).
Proof.
  split.
  - intros l xs Hl Hfuel.
    pose proof (square_all_list_run fuel l xs s Hl Hfuel) as H1.
    pose proof (square_list_FL_run fuel l xs s Hl Hfuel) as H2.
    pose proof (square_list_LC_run l xs s Hl) as H3.
    destruct (mapM pow2 xs) as [ys|].
    + rewrite H1, H2, H3. split_and!; by apply list_frame_returned.
    + destruct H1 as [acc1 ->], H2 as [acc2 ->]. rewrite H3.
      split_and!; [by apply list_frame_raised..|].
      cbn [list_frame]. split_and!; [done|done|reflexivity].
  - intros a arr Ha. rewrite (square_all_array_run a arr s Ha).
    destruct (ndarray_pow2 arr) as [squares|];
      cbn [array_frame array_addr arrays set_arrays].
    + split_and!.
      * by apply lookup_app_l_Some.
      * apply extends_set_arrays.
      * by apply lookup_ge_None.
      * rewrite lookup_fresh_list. by eexists.
    + split_and!; [done|done|reflexivity].
Qed.

Lemma squaring_leaves_input_unchanged_witness :
  (lists demo_state !! list_addr (ListRef 0) = Some [PyInt 0; PyInt 1; PyInt 2; PyInt 3] ∧
   (length [PyInt 0; PyInt 1; PyInt 2; PyInt 3] < 5)%nat ∧
   list_frame demo_state (ListRef 0) [PyInt 0; PyInt 1; PyInt 2; PyInt 3]
     (square_all_list (libm := rounding_libm) 5 (ListRef 0) demo_state) ∧
   list_frame demo_state (ListRef 0) [PyInt 0; PyInt 1; PyInt 2; PyInt 3]
     (square_list_FL (libm := rounding_libm) 5 (ListRef 0) demo_state) ∧
   list_frame demo_state (ListRef 0) [PyInt 0; PyInt 1; PyInt 2; PyInt 3]
     (square_list_LC (libm := rounding_libm) (ListRef 0) demo_state)) ∧
  (arrays demo_state !! array_addr (ArrayRef 0) = Some (I64 [0; 1; 2; 3]) ∧
   array_frame demo_state (ArrayRef 0) (I64 [0; 1; 2; 3])
     (square_all_array (libm := rounding_libm) (ArrayRef 0) demo_state)) ∧
  (lists huge_float_state !! list_addr (ListRef 0) =
     Some [PyFloat (Float64.of_int (10 ^ 200))] ∧
   list_frame huge_float_state (ListRef 0) [PyFloat (Float64.of_int (10 ^ 200))]
     (square_all_list (libm := rounding_libm) 2 (ListRef 0) huge_float_state)).
Proof.
  destruct (squaring_leaves_input_unchanged (libm := rounding_libm) 5 demo_state)
    as [Hlists Harrays].
  destruct (squaring_leaves_input_unchanged (libm := rounding_libm) 2 huge_float_state)
    as [Hhuge _].
  split; [|split].
  - split; [reflexivity|]. split; [simpl; lia|].
    exact (Hlists (ListRef 0) [PyInt 0; PyInt 1; PyInt 2; PyInt 3] eq_refl
             ltac:(cbn [length]; lia)).
  - split; [reflexivity|]. exact (Harrays (ArrayRef 0) (I64 [0; 1; 2; 3]) eq_refl).
  - split; [reflexivity|].
    destruct (Hhuge (ListRef 0) [PyFloat (Float64.of_int (10 ^ 200))] eq_refl
                ltac:(cbn [length]; lia)) as [H1 _].
    exact H1.
Defined.

(** ** Exponentiation of two-dimensional buffers *)




Lemma is_square_rows {A} (m : list (list A)) :
  is_square m = true ↔ Forall (λ row, length row = length m) m.
Proof.
  unfold is_square. generalize (length m). intros n.
  induction m as [|row m IH]; simpl.
  - split; [constructor|done].
  - rewrite andb_true_iff, Nat.eqb_eq, Forall_cons, IH. done.
Qed.


Lemma length_complex128_buffer (m : cmatrix) : length (complex128_buffer m) = length m.
Proof. apply length_fmap. Qed.

Lemma complex128_buffer_rows (n : nat) (m : cmatrix) :
  Forall (λ row, length row = n) m → Forall (λ row, length row = n) (complex128_buffer m).
Proof.
  intros Hm. apply Forall_fmap. eapply Forall_impl; [exact Hm|].
  intros row Hrow. simpl. by rewrite length_fmap.
Qed.

(** *** Shapes *)

Lemma length_vzero (n : nat) : length (vzero n) = n.
Proof. apply length_replicate. Qed.

Lemma length_vscale (a : Complex128.t) (v : list Complex128.t) :
  length (vscale a v) = length v.
Proof. apply length_fmap. Qed.

Lemma length_accumulate (n : nat) (acc : list Complex128.t)
    (rB : list (Complex128.t * list Complex128.t)) :
  length acc = n → Forall (λ ar, length ar.2 = n) rB →
  length (foldl (λ acc ar, vadd acc (vscale ar.1 ar.2)) acc rB) = n.
Proof.
  revert acc. induction rB as [|[a row] rB IH]; intros acc Hacc HrB; [done|].
  apply Forall_cons in HrB as [Hrow HrB]. simpl in *.
  apply IH; [|done]. unfold vadd. rewrite length_zip_with, length_vscale. lia.
Qed.

Lemma length_vec_mat (n : nat) (r : list Complex128.t) (B : cmatrix128) :
  Forall (λ row, length row = n) B → length (vec_mat n r B) = n.
Proof.
  intros HB. apply length_accumulate; [apply length_vzero|].
  apply Forall_forall. intros [a row] Hin%elem_of_zip_r. simpl.
  by eapply Forall_forall in HB.
Qed.

Lemma mat_mul_shape (n : nat) (A B : cmatrix128) :
  length A = n → length B = n → Forall (λ row, length row = n) B →
  length (mat_mul A B) = n ∧ Forall (λ row, length row = n) (mat_mul A B).
Proof.
  intros HA HB Hrows. unfold mat_mul. split.
  - by rewrite length_fmap.
  - apply Forall_fmap, Forall_forall. intros r _. simpl.
    rewrite HB. by apply length_vec_mat.
Qed.

Lemma matrix_power_loop_shape (p : positive) (n : nat) (result : option cmatrix128)
    (z : cmatrix128) :
  shaped n z → from_option (shaped n) True result →
  shaped n (matrix_power_loop result z p).
Proof.
  revert result z. induction p as [p IH|p IH|]; intros result z Hz Hres; simpl.
  - apply IH.
    + apply mat_mul_shape; apply Hz.
    + destruct result as [r|]; simpl in *; [|done].
      apply mat_mul_shape; [apply Hres|apply Hz..].
  - apply IH; [|done]. apply mat_mul_shape; apply Hz.
  - destruct result as [r|]; simpl in *; [|done].
    apply mat_mul_shape; [apply Hres|apply Hz..].
Qed.

Lemma matrix_power_shape (p : positive) (n : nat) (m : cmatrix128) :
  shaped n m → shaped n (matrix_power m p).
Proof.
  intros Hm.
  assert (Hloop : shaped n (matrix_power_loop None m p))
    by (by apply matrix_power_loop_shape).
  assert (H2 : shaped n (mat_mul m m)) by (apply mat_mul_shape; apply Hm).
  assert (H3 : shaped n (mat_mul (mat_mul m m) m))
    by (apply mat_mul_shape; [apply H2|apply Hm..]).
  unfold matrix_power.
  destruct p as [[p|p|]|[p|p|]|]; done.
Qed.

(** *** Products of diagonal buffers of zeros and ones

    On zeros and ones every product and every sum below is exact, so the
    buffer arithmetic on doubles can be followed step by step. *)

Section Diagonal.

#[local] Arguments vzero : simpl never.
#[local] Arguments vadd : simpl never.
#[local] Arguments vscale : simpl never.


Lemma bit128_true : bit128 true = Complex128.one.
Proof. reflexivity. Qed.
























End Diagonal.



(** ** The random buffer *)

Lemma draw_run (n : nat) (s : state) :
  draw n s =
    Ok ((λ k, rng_stream s (rng_pos s + k)%nat) <$> seq 0 n)
       (set_rng_pos (rng_pos s + n) s).
Proof.
  revert s. induction n as [|n IH]; intros s; csimpl.
  - unfold mret, M_ret. rewrite Nat.add_0_r. by destruct s.
  - erewrite bind_Ok by reflexivity. erewrite bind_Ok by apply IH.
    unfold mret, M_ret. simpl. f_equal.
    + rewrite Nat.add_0_r. f_equal.
      rewrite <- fmap_S_seq, <- list_fmap_compose.
      apply list_fmap_ext. intros _ k _. simpl. f_equal. lia.
    + unfold set_rng_pos. simpl. f_equal. lia.
Qed.

Lemma draw_rows_run (rows cols : nat) (s : state) :
  draw_rows rows cols s =
    Ok ((λ i, (λ j, rng_stream s (rng_pos s + i * cols + j)%nat) <$> seq 0 cols)
          <$> seq 0 rows)
       (set_rng_pos (rng_pos s + rows * cols) s).
Proof.
  revert s. induction rows as [|rows IH]; intros s; csimpl.
  - unfold mret, M_ret. rewrite Nat.add_0_r. by destruct s.
  - erewrite bind_Ok by apply draw_run. erewrite bind_Ok by apply IH.
    unfold mret, M_ret. simpl. f_equal.
    + f_equal.
      * apply list_fmap_ext. intros _ j _. simpl. f_equal. lia.
      * rewrite <- fmap_S_seq, <- list_fmap_compose.
        apply list_fmap_ext. intros _ i _. simpl.
        apply list_fmap_ext. intros _ j _. simpl. f_equal. lia.
    + unfold set_rng_pos. simpl. f_equal. lia.
Qed.

Lemma dense_entry_sum (threshold x y : spec_float) :
  Complex.add (Complex.of_bool (Float64.gt x threshold))
    (Complex.mul (Complex.of_bool (Float64.gt y threshold)) Complex.j) =
  dense_entry threshold x y.
Proof.
  unfold dense_entry. by destruct (Float64.gt x threshold), (Float64.gt y threshold).
Qed.

Lemma generate_dense_matrix_run (N : Z) (density : spec_float) (s : state) :
  0 ≤ N →
  generate_dense_matrix N density s =
    Ok (Ndarray2 (dense_buffer (Float64.div density (Float64.of_int 2))
                    (rng_stream s) (rng_pos s) (Z.to_nat N)))
       (set_rng_pos (rng_pos s + 2 * (Z.to_nat N * Z.to_nat N)) s).
Proof.
  intros HN. unfold generate_dense_matrix, np_random_rand.
  rewrite bool_decide_false by lia.
  erewrite bind_Ok by apply draw_rows_run. erewrite bind_Ok by apply draw_rows_run.
  unfold mret, M_ret. simpl. f_equal.
  - f_equal. unfold dense_buffer.
    rewrite <- !list_fmap_compose, zip_with_fmap_l, zip_with_fmap_r, zip_with_diag.
    apply list_fmap_ext. intros _ i _. simpl.
    rewrite <- !list_fmap_compose, zip_with_fmap_l, zip_with_fmap_r, zip_with_diag.
    apply list_fmap_ext. intros _ j _. simpl. apply dense_entry_sum.
  - unfold set_rng_pos. simpl. f_equal. lia.
Qed.

(** C6: for every positive [N], every density and every realization of the
    random source, [generate_dense_matrix] returns a dense [N] by [N] buffer
    of complex numbers; the real part of an element is 1 when its draw
    exceeds [density/2] and 0 otherwise, and the imaginary part is the same
    thresholding of a second draw, times [1j]. *)
Theorem generate_dense_matrix_entries (N : Z) (density : spec_float) (s : state) :
  0 < N →
  ∃ m s',
    generate_dense_matrix N density s = Ok (Ndarray2 m) s' ∧
    length m = Z.to_nat N ∧
    Forall (λ row, length row = Z.to_nat N) m ∧
    (∀ i j, (i < Z.to_nat N)%nat → (j < Z.to_nat N)%nat →
       m !! i ≫= (.!! j) =
         Some (dense_entry (Float64.div density (Float64.of_int 2))
                 (rng_stream s (rng_pos s + i * Z.to_nat N + j)%nat)
                 (rng_stream s (rng_pos s + Z.to_nat N * Z.to_nat N
                                + i * Z.to_nat N + j)%nat))) ∧
    Forall (Forall (λ z, (Complex.re z = 0 ∨ Complex.re z = 1) ∧
                         (Complex.im z = 0 ∨ Complex.im z = 1))) m.
Proof.
  intros HN. eexists _, _. split; [apply generate_dense_matrix_run; lia|].
  unfold dense_buffer. split_and!.
  - by rewrite length_fmap, length_seq.
  - apply Forall_fmap, Forall_forall. intros i _. simpl.
    by rewrite length_fmap, length_seq.
  - intros i j Hi Hj.
    rewrite list_lookup_fmap, lookup_seq_lt by done. simpl.
    rewrite list_lookup_fmap, lookup_seq_lt by done. done.
  - apply Forall_fmap, Forall_forall. intros i _. simpl.
    apply Forall_fmap, Forall_forall. intros j _. simpl.
    destruct (Float64.gt _ _), (Float64.gt _ _); simpl; auto.
Qed.

Lemma generate_dense_matrix_entries_witness :
  0 < 2 ∧
  ∃ m s',
    generate_dense_matrix 2 default_density demo_state = Ok (Ndarray2 m) s' ∧
    length m = Z.to_nat 2 ∧
    Forall (λ row, length row = Z.to_nat 2) m ∧
    (∀ i j, (i < Z.to_nat 2)%nat → (j < Z.to_nat 2)%nat →
       m !! i ≫= (.!! j) =
         Some (dense_entry (Float64.div default_density (Float64.of_int 2))
                 (rng_stream demo_state (rng_pos demo_state + i * Z.to_nat 2 + j)%nat)
                 (rng_stream demo_state (rng_pos demo_state + Z.to_nat 2 * Z.to_nat 2
                                         + i * Z.to_nat 2 + j)%nat))) ∧
    Forall (Forall (λ z, (Complex.re z = 0 ∨ Complex.re z = 1) ∧
                         (Complex.im z = 0 ∨ Complex.im z = 1))) m.
Proof.
  split; [lia|]. apply (generate_dense_matrix_entries 2 default_density demo_state). lia.
Defined.

(** ** What the benchmark functions and the blocks share *)

Create HintDb oblivious.

Lemma oblivious_ret {A} (a : A) : oblivious (mret a).
Proof. by intros amb s. Qed.

Lemma oblivious_raise {A} (e : exn) : oblivious (@raise A e).
Proof. by intros amb s. Qed.

Lemma oblivious_or_raise {A} (e : exn) (r : option A) : oblivious (or_raise e r).
Proof. destruct r; [apply oblivious_ret|apply oblivious_raise]. Qed.

Lemma oblivious_bind {A B} (m : M A) (f : A → M B) :
  oblivious m → (∀ a, oblivious (f a)) → oblivious (m ≫= f).
Proof.
  intros Hm Hf amb s. unfold mbind, M_bind. rewrite Hm.
  destruct (m s) as [a s'|e s'|]; simpl; [apply Hf|done|done].
Qed.

Lemma oblivious_out_of_fuel {A} : oblivious (@out_of_fuel A).
Proof. by intros amb s. Qed.

Lemma oblivious_new_list (items : list scalar) : oblivious (new_list items).
Proof. by intros amb s. Qed.

Lemma oblivious_read_list (l : list_ref) : oblivious (read_list l).
Proof. intros amb s. unfold read_list. simpl. by destruct (lists s !! list_addr l). Qed.

Lemma oblivious_write_list (l : list_ref) (items : list scalar) :
  oblivious (write_list l items).
Proof. by intros amb s. Qed.

Lemma oblivious_new_array (a : ndarray) : oblivious (new_array a).
Proof. by intros amb s. Qed.

Lemma oblivious_read_array (a : array_ref) : oblivious (read_array a).
Proof. intros amb s. unfold read_array. simpl. by destruct (arrays s !! array_addr a). Qed.

#[local] Hint Resolve oblivious_ret oblivious_raise oblivious_or_raise oblivious_bind
  oblivious_out_of_fuel oblivious_new_list oblivious_read_list oblivious_write_list
  oblivious_new_array oblivious_read_array : oblivious.

Lemma oblivious_list_append (l : list_ref) (x : scalar) : oblivious (list_append l x).
Proof. unfold list_append. auto with oblivious. Qed.

Lemma oblivious_np_array_empty : oblivious np_array_empty.
Proof. unfold np_array_empty. auto with oblivious. Qed.

Lemma oblivious_np_append (a : array_ref) (z : Z) : oblivious (np_append a z).
Proof. unfold np_append. auto with oblivious. Qed.

Lemma oblivious_for_range {L} (xs : list Z) (body : Z → L → M L) (locals : L) :
  (∀ i locals, oblivious (body i locals)) → oblivious (for_range xs body locals).
Proof.
  intros Hbody. revert locals.
  induction xs as [|i xs IH]; intros locals; simpl; auto with oblivious.
Qed.

Lemma oblivious_for_in (fuel : nat) (l : list_ref) (idx : nat) (body : scalar → M unit) :
  (∀ x, oblivious (body x)) → oblivious (for_in fuel l idx body).
Proof.
  intros Hbody. revert idx.
  induction fuel as [|fuel IH]; intros idx; simpl; [auto with oblivious|].
  apply oblivious_bind; [auto with oblivious|].
  intros items. destruct (items !! idx); auto with oblivious.
Qed.

#[local] Hint Resolve oblivious_list_append oblivious_np_array_empty
  oblivious_np_append oblivious_for_range oblivious_for_in : oblivious.

Lemma oblivious_build_list (count : Z) : oblivious (build_list count).
Proof. unfold build_list. auto 6 with oblivious. Qed.

Lemma oblivious_build_array (count : Z) : oblivious (build_array count).
Proof. unfold build_array. auto 6 with oblivious. Qed.

Section shared.

Context {libm : Libm}.

Lemma oblivious_square_all_array (a : array_ref) : oblivious (square_all_array a).
Proof. unfold square_all_array. auto 6 with oblivious. Qed.

Lemma oblivious_square_all_list (fuel : nat) (l : list_ref) :
  oblivious (square_all_list fuel l).
Proof. unfold square_all_list. auto 8 with oblivious. Qed.

Lemma oblivious_square_list_FL (fuel : nat) (l : list_ref) :
  oblivious (square_list_FL fuel l).
Proof. unfold square_list_FL. auto 8 with oblivious. Qed.

Lemma oblivious_square_list_LC (l : list_ref) : oblivious (square_list_LC l).
Proof. unfold square_list_LC. auto 6 with oblivious. Qed.

(** [generate_dense_matrix] reads and advances the random source and
    touches nothing else. *)
Lemma random_only_generate_dense_matrix (N : Z) (density : spec_float) :
  random_only (generate_dense_matrix N density).
Proof.
  intros sur s. destruct (decide (0 ≤ N)) as [HN|HN].
  - by rewrite !generate_dense_matrix_run.
  - unfold generate_dense_matrix, np_random_rand.
    rewrite bool_decide_true by lia. done.
Qed.

(** *** Running the blocks *)

Lemma timeit_extends {A} (P : state → Prop) (stmt : M A) (n : nat) :
  (∀ s s', P s → extends s s' → P s') →
  (∀ s, P s → ∃ a s', stmt s = Ok a s' ∧ extends s s') →
  ∀ s, P s → ∃ s', timeit n stmt s = Ok tt s' ∧ extends s s'.
Proof.
  intros Hpres Hstmt. induction n as [|n IH]; intros s Hs; simpl.
  - destruct (Hstmt s Hs) as (a & s' & Hrun & Hext).
    exists s'. by erewrite bind_Ok by exact Hrun.
  - destruct (Hstmt s Hs) as (a & s1 & Hrun & Hext1).
    destruct (IH s1) as (s' & Hrun' & Hext2); [by eapply Hpres|].
    exists s'. erewrite bind_Ok by exact Hrun. split; [done|by etrans].
Qed.

Lemma timeit_raise {A} (stmt : M A) (n : nat) (e : exn) (s s' : state) :
  stmt s = Raise e s' → timeit n stmt s = Raise e s'.
Proof. intros H. destruct n; simpl; unfold mbind, M_bind; by rewrite H. Qed.

Lemma extends_after_build_array (count : Z) (s : state) :
  extends s (after_build_array count s).
Proof. repeat split; simpl; try done; by apply prefix_app_r. Qed.

Lemma timeit_build_list (n : nat) (count : Z) (s : state) :
  ∃ s', timeit n (build_list count) s = Ok tt s' ∧ extends s s'.
Proof.
  apply (timeit_extends (λ _, True)); [done| |done].
  intros s0 _. eexists _, _. split; [apply build_list_run|apply extends_set_lists].
Qed.

Lemma np_global_bound (s : state) : np (env s) = true → np_global s = Ok tt s.
Proof. unfold np_global. by intros ->. Qed.

Lemma np_global_unbound (s : state) : np (env s) = false → np_global s = Raise NameError s.
Proof. unfold np_global. by intros ->. Qed.

Lemma timeit_build_array (n : nat) (count : Z) (s : state) :
  np (env s) = true →
  ∃ s', timeit n (np_global;; build_array count) s = Ok tt s' ∧ extends s s'.
Proof.
  apply (timeit_extends (λ s0, np (env s0) = true)).
  - intros s0 s1 Hnp (_ & _ & _ & ->). done.
  - intros s0 Hnp. destruct (build_array_run count s0) as (out & Hrun & _).
    eexists _, _. split; [|apply extends_after_build_array].
    erewrite bind_Ok by (by apply np_global_bound). exact Hrun.
Qed.

(** Timed calls of a list function on the list bound to [prebuilt_list]:
    each adds the list it returns. *)
Lemma timeit_adds_lists (f : list_ref → M list_ref) (ys : list scalar)
    (n : nat) (l : list_ref) (xs : list scalar) (s : state) :
  (∀ s0, lists s0 !! list_addr l = Some xs →
     f l s0 = Ok (ListRef (length (lists s0))) (set_lists (lists s0 ++ [ys]) s0)) →
  prebuilt_list (env s) = Some l → lists s !! list_addr l = Some xs →
  timeit n (l ← lookup_name prebuilt_list; f l) s =
    Ok tt (set_lists (lists s ++ replicate (S n) ys) s).
Proof.
  intros Hf. revert s. induction n as [|n IH]; intros s Hname Hl.
  - simpl. unfold mbind, M_bind, lookup_name. rewrite Hname, (Hf s Hl). done.
  - cbn [timeit]. unfold mbind at 1, M_bind at 1.
    unfold mbind at 1, M_bind at 1, lookup_name at 1. rewrite Hname, (Hf s Hl).
    rewrite IH; [|done|simpl; by apply lookup_app_l_Some].
    simpl. by rewrite <- app_assoc.
Qed.

Lemma extends_add_lists (s : state) (new : list (list scalar)) :
  extends s (set_lists (lists s ++ new) s).
Proof. repeat split; simpl; try done. by apply prefix_app_r. Qed.

(** The second block, when every element of [prebuilt_list] has a
    square. *)
Lemma cell2_run (runs fuel : nat) (l : list_ref) (xs ys : list scalar) (s : state) :
  prebuilt_list (env s) = Some l → lists s !! list_addr l = Some xs →
  (length xs < fuel)%nat → mapM pow2 xs = Some ys →
  cell2 runs fuel s =
    Ok tt (set_lists (lists s ++ replicate (2 * S runs) ys) s).
Proof.
  intros Hname Hl Hfuel Hys. unfold cell2.
  erewrite bind_Ok.
  2:{ apply (timeit_adds_lists (square_list_FL fuel) ys runs l xs); [|done|done].
      intros s0 H0. by apply (square_list_FL_returns fuel l xs). }
  rewrite (timeit_adds_lists square_list_LC ys runs l xs).
  - cbn [lists set_lists]. rewrite <- app_assoc, <- replicate_add.
    replace (S runs + S runs)%nat with (2 * S runs)%nat by lia. done.
  - intros s0 H0. by apply (square_list_LC_returns l xs).
  - done.
  - simpl. by apply lookup_app_l_Some.
Qed.

(** The second block, when an element of [prebuilt_list] has none: the
    first call raises. *)
Lemma cell2_overflow (runs fuel : nat) (l : list_ref) (xs : list scalar) (s : state) :
  prebuilt_list (env s) = Some l → lists s !! list_addr l = Some xs →
  (length xs < fuel)%nat → mapM pow2 xs = None →
  ∃ acc, cell2 runs fuel s = Raise OverflowError (set_lists (lists s ++ [acc]) s).
Proof.
  intros Hname Hl Hfuel Hys. unfold cell2.
  pose proof (square_list_FL_run fuel l xs s Hl Hfuel) as HFL.
  rewrite Hys in HFL. destruct HFL as [acc HFL]. exists acc.
  apply bind_Raise, timeit_raise.
  unfold mbind, M_bind, lookup_name. by rewrite Hname.
Qed.

Lemma cell2_unbound (runs fuel : nat) (s : state) :
  prebuilt_list (env s) = None → cell2 runs fuel s = Raise NameError s.
Proof.
  intros Hname. unfold cell2. apply bind_Raise, timeit_raise.
  unfold mbind, M_bind, lookup_name. by rewrite Hname.
Qed.

Lemma length_linspace (start stop : Z) : length (tolist (linspace start stop)) = 50%nat.
Proof.
  unfold linspace, range, tolist.
  by rewrite length_fmap, length_app, length_fmap, length_seqZ.
Qed.

Lemma tolist_linspace (start stop : Z) :
  ∃ data, linspace start stop = F64 data.
Proof. by eexists. Qed.

Lemma cell1_run (runs fuel : nat) (s : state) :
  (50 < fuel)%nat →
  ∃ s' a l,
    cell1 runs fuel s = Ok tt s' ∧
    store_extends s s' ∧
    rng_stream s' = rng_stream s ∧ rng_pos s' = rng_pos s ∧
    env s' = Globals true (Some a) (Some l) (big_ndarray (env s)) (big_matrix (env s)) ∧
    arrays s' !! array_addr a = Some (linspace 0 5000) ∧
    lists s' !! list_addr l = Some (tolist (linspace 0 5000)).
Proof.
  intros Hfuel. unfold cell1.
  pose proof (length_linspace 0 5000) as Hlen.
  destruct (tolist_linspace 0 5000) as [data Hdata].
  generalize dependent (linspace 0 5000). intros lin Hlen Hdata.
  erewrite bind_Ok by reflexivity.
  set (s0 := set_env (Globals true (prebuilt_array (env s)) (prebuilt_list (env s))
                        (big_ndarray (env s)) (big_matrix (env s))) s).
  destruct (timeit_build_list runs 5000 s0) as (s1 & Hrun1 & Hext1).
  erewrite bind_Ok by exact Hrun1.
  assert (Hnp1 : np (env s1) = true) by (by destruct Hext1 as (_ & _ & _ & ->)).
  destruct (timeit_build_array runs 5000 s1 Hnp1) as (s2 & Hrun2 & Hext2).
  erewrite bind_Ok by exact Hrun2.
  assert (Hext : extends s0 s2) by (by etrans).
  assert (Hnp2 : np (env s2) = true) by (by destruct Hext2 as (_ & _ & _ & ->)).
  clear Hrun1 Hrun2 Hext1 Hext2 Hnp1 s1.
  erewrite bind_Ok by (by apply np_global_bound).
  erewrite bind_Ok by reflexivity.
  erewrite bind_Ok by reflexivity.
  erewrite bind_Ok by reflexivity.
  set (a := ArrayRef (length (arrays s2))).
  set (l := ListRef (length (lists s2))).
  set (g := Globals true (Some a) (Some l) (big_ndarray (env s)) (big_matrix (env s))).
  set (s3 := State (lists s2 ++ [tolist lin]) (arrays s2 ++ [lin])
                   (rng_stream s2) (rng_pos s2) g).
  assert (Hlist : (list_of_array a ≫= λ l0,
             bind_name (λ g0, Globals (np g0) (prebuilt_array g0) (Some l0)
                                (big_ndarray g0) (big_matrix g0)))
            (set_env (Globals (np (env s2)) (Some a) (prebuilt_list (env s2))
                        (big_ndarray (env s2)) (big_matrix (env s2)))
               (set_arrays (arrays s2 ++ [lin]) s2)) = Ok tt s3).
  { unfold list_of_array, mbind, M_bind, read_array. simpl.
    rewrite lookup_fresh_list. unfold s3, g. simpl.
    destruct Hext as (_ & _ & _ & ->). done. }
  unfold mbind at 1, M_bind at 1. unfold mbind at 1 in Hlist. unfold M_bind at 1 in Hlist.
  destruct (list_of_array a _) as [l0 s0'|e0 s0'|] eqn:Hl0; [|done|done].
  simpl in Hlist. unfold mbind at 1, M_bind at 1. rewrite Hlist. clear Hl0 Hlist.
  assert (Ha3 : arrays s3 !! array_addr a = Some lin) by apply lookup_fresh_list.
  assert (Hl3 : lists s3 !! list_addr l = Some (tolist lin)) by apply lookup_fresh_list.
  assert (Hsq : mapM pow2 (tolist lin) =
                Some (NpFloat64 <$> (libm_pow_2 <$> data))).
  { rewrite Hdata. apply mapM_pow2_float64s. }
  erewrite bind_Ok.
  2:{ apply (timeit_adds_lists (square_all_list fuel)
               (NpFloat64 <$> (libm_pow_2 <$> data)) runs l (tolist lin) s3);
        [|done|done].
      intros s6 H6. apply (square_all_list_returns fuel l (tolist lin)); [done| |done].
      rewrite Hlen. done. }
  set (s4 := set_lists _ s3).
  assert (Hext4 : extends s3 s4) by apply extends_add_lists.
  assert (∃ s5, timeit runs (a0 ← lookup_name prebuilt_array; square_all_array a0) s4
                = Ok tt s5 ∧ extends s4 s5) as (s5 & Hrun5 & Hext5).
  { apply (timeit_extends
             (λ s0, prebuilt_array (env s0) = Some a ∧ arrays s0 !! array_addr a = Some lin)).
    - intros s6 s7 [Hn Hx] Hext'. split.
      + destruct Hext' as (_ & _ & _ & ->). done.
      + eapply extends_arrays; [apply Hext'|done].
    - intros s6 [Hn Hx]. eexists _, _. split.
      + unfold mbind, M_bind, lookup_name. rewrite Hn.
        apply (square_all_array_returns a lin); [done|]. rewrite Hdata. reflexivity.
      + apply extends_set_arrays.
    - split; [done|]. exact Ha3. }
  exists s5, a, l. split; [exact Hrun5|].
  assert (Hext35 : extends s3 s5) by (by etrans).
  destruct Hext as ((Hl & Ha) & Hst & Hpos & Henv).
  destruct Hext35 as ((Hl' & Ha') & Hst' & Hpos' & Henv').
  split_and!.
  - split.
    + etrans; [exact Hl|]. etrans; [|exact Hl']. by apply prefix_app_r.
    + etrans; [exact Ha|]. etrans; [|exact Ha']. by apply prefix_app_r.
  - by rewrite Hst'.
  - by rewrite Hpos'.
  - by rewrite Henv'.
  - by eapply prefix_lookup_Some.
  - by eapply prefix_lookup_Some.
Qed.

Lemma forallb_fmap_true {A B} (f : B → bool) (g : A → B) (l : list A) :
  (∀ x, f (g x) = true) → forallb f (g <$> l) = true.
Proof. intros H. induction l as [|x l IH]; csimpl; [done|]. by rewrite H, IH. Qed.

Lemma is_square_dense_buffer (threshold : spec_float) (stream : nat → spec_float)
    (pos n : nat) :
  is_square (dense_buffer threshold stream pos n) = true.
Proof.
  unfold is_square, dense_buffer. rewrite length_fmap, length_seq.
  apply forallb_fmap_true. intros i.
  by rewrite length_fmap, length_seq, Nat.eqb_refl.
Qed.

Lemma timeit_pure {A} (stmt : M A) (n : nat) (a : A) (s : state) :
  stmt s = Ok a s → timeit n stmt s = Ok tt s.
Proof.
  intros H. induction n as [|n IH]; simpl.
  - by erewrite bind_Ok by exact H.
  - by erewrite bind_Ok by exact H.
Qed.

(** A timed exponentiation of the buffer bound to a name changes nothing. *)
Lemma timeit_buffer_pow (name : globals → option (buffer2 Complex.t))
    (b : buffer2 Complex.t) (n : nat) (s : state) :
  name (env s) = Some b → is_square (entries b) = true →
  timeit n (b ← lookup_name name; buffer_pow b 300) s = Ok tt s.
Proof.
  intros Hname Hsq. unfold lookup_name.
  destruct b as [m|m]; simpl in Hsq.
  - apply timeit_pure with (a := Ndarray2 (elementwise_power (complex128_buffer m) 300)).
    unfold mbind, M_bind. by rewrite Hname.
  - apply timeit_pure with (a := Matrix (matrix_power (complex128_buffer m) 300)).
    unfold mbind, M_bind. rewrite Hname. unfold buffer_pow. by rewrite Hsq.
Qed.

Lemma cell3_run (runs : nat) (s : state) :
  np (env s) = true →
  ∃ s',
    cell3 runs s = Ok tt s' ∧
    lists s' = lists s ∧ arrays s' = arrays s ∧
    rng_stream s' = rng_stream s ∧
    env s' =
      Globals true (prebuilt_array (env s)) (prebuilt_list (env s))
        (Some (Ndarray2 (dense_buffer (Float64.div default_density (Float64.of_int 2))
                           (rng_stream s) (rng_pos s) (Z.to_nat 500))))
        (Some (Matrix (dense_buffer (Float64.div default_density (Float64.of_int 2))
                         (rng_stream s)
                         (rng_pos s + 2 * (Z.to_nat 500 * Z.to_nat 500))
                         (Z.to_nat 500)))).
Proof.
  intros Hnp. unfold cell3.
  erewrite bind_Ok by (by apply np_global_bound).
  erewrite bind_Ok by (by apply generate_dense_matrix_run).
  erewrite bind_Ok by reflexivity.
  erewrite bind_Ok by (apply np_global_bound; exact Hnp).
  erewrite bind_Ok by (by apply generate_dense_matrix_run).
  erewrite bind_Ok by reflexivity.
  cbn [env set_env set_rng_pos np prebuilt_array prebuilt_list big_ndarray big_matrix
       lists arrays rng_stream rng_pos np_matrix entries].
  rewrite Hnp.
  generalize (Float64.div default_density (Float64.of_int 2)). intros t.
  generalize (Z.to_nat 500). intros n.
  eexists. erewrite bind_Ok.
  2:{ eapply timeit_buffer_pow; [reflexivity|apply is_square_dense_buffer]. }
  split.
  - eapply timeit_buffer_pow; [reflexivity|apply is_square_dense_buffer].
  - done.
Qed.

Lemma cell3_unbound (runs : nat) (s : state) :
  np (env s) = false → cell3 runs s = Raise NameError s.
Proof. intros Hnp. unfold cell3. by apply bind_Raise, np_global_unbound. Qed.

End shared.

(** C8, as amended: the blocks share two names, both bound by the first
    block: [prebuilt_list], which the second block reads, and [np], the
    numpy module, which the third block reads.  The list and array
    functions read and write nothing outside the objects they are given and
    create, and [generate_dense_matrix] nothing but numpy's random source.
    The first block runs in every namespace and binds [np],
    [prebuilt_array] and [prebuilt_list].  The second block stops with a
    NameError exactly where [prebuilt_list] is unbound; where it names a
    list the block adds lists, or raises OverflowError, and changes no name.
    The third block stops with a NameError exactly where [np] is unbound;
    elsewhere it runs, binds [big_ndarray] and [big_matrix], and leaves the
    object store untouched. *)
Theorem blocks_share_prebuilt_list_and_np {libm : Libm} (runs fuel : nat) :
  ((∀ count, oblivious (build_list count)) ∧
   (∀ count, oblivious (build_array count)) ∧
   (∀ a, oblivious (square_all_array a)) ∧
   (∀ l, oblivious (square_all_list fuel l)) ∧
   (∀ l, oblivious (square_list_FL fuel l)) ∧
   (∀ l, oblivious (square_list_LC l)) ∧
   (∀ N density, random_only (generate_dense_matrix N density))) ∧
  (∀ s, (50 < fuel)%nat →
     ∃ s' a l,
       cell1 runs fuel s = Ok tt s' ∧
       store_extends s s' ∧
       rng_stream s' = rng_stream s ∧ rng_pos s' = rng_pos s ∧
       env s' = Globals true (Some a) (Some l) (big_ndarray (env s)) (big_matrix (env s)) ∧
       arrays s' !! array_addr a = Some (linspace 0 5000) ∧
       lists s' !! list_addr l = Some (tolist (linspace 0 5000))) ∧
  (∀ s, prebuilt_list (env s) = None → cell2 runs fuel s = Raise NameError s) ∧
  (∀ s l xs,
     prebuilt_list (env s) = Some l → lists s !! list_addr l = Some xs →
     (length xs < fuel)%nat →
     (∃ s', cell2 runs fuel s = Ok tt s' ∧ extends s s') ∨
     (∃ s', cell2 runs fuel s = Raise OverflowError s' ∧ extends s s')) ∧
  (∀ s, np (env s) = false → cell3 runs s = Raise NameError s) ∧
  (∀ s, np (env s) = true →
     ∃ s',
       cell3 runs s = Ok tt s' ∧
       lists s' = lists s ∧ arrays s' = arrays s ∧
       rng_stream s' = rng_stream s ∧
       env s' =
         Globals true (prebuilt_array (env s)) (prebuilt_list (env s))
           (Some (Ndarray2 (dense_buffer (Float64.div default_density (Float64.of_int 2))
                              (rng_stream s) (rng_pos s) (Z.to_nat 500))))
           (Some (Matrix (dense_buffer (Float64.div default_density (Float64.of_int 2))
                            (rng_stream s)
                            (rng_pos s + 2 * (Z.to_nat 500 * Z.to_nat 500))
                            (Z.to_nat 500))))).
Proof.
  split; [|split; [|split; [|split; [|split]]]].
  - split_and!.
    + apply oblivious_build_list.
    + apply oblivious_build_array.
    + apply oblivious_square_all_array.
    + apply oblivious_square_all_list.
    + apply oblivious_square_list_FL.
    + apply oblivious_square_list_LC.
    + apply random_only_generate_dense_matrix.
  - intros s H50. by apply cell1_run.
  - intros s Hname. by apply cell2_unbound.
  - intros s l xs Hname Hl Hfuel.
    destruct (mapM pow2 xs) as [ys|] eqn:Hys.
    + left. eexists. split; [by eapply cell2_run|]. apply extends_add_lists.
    + right. destruct (cell2_overflow runs fuel l xs s Hname Hl Hfuel Hys) as [acc Hrun].
      eexists. split; [exact Hrun|]. apply extends_add_lists.
  - intros s Hnp. by apply cell3_unbound.
  - intros s Hnp. by apply cell3_run.
Qed.

Lemma blocks_share_prebuilt_list_and_np_witness :
  (50 < 51)%nat ∧
  (∃ s' a l,
     cell1 (libm := rounding_libm) 0 51 demo_state = Ok tt s' ∧
     store_extends demo_state s' ∧
     rng_stream s' = rng_stream demo_state ∧ rng_pos s' = rng_pos demo_state ∧
     env s' = Globals true (Some a) (Some l) (big_ndarray (env demo_state))
                (big_matrix (env demo_state)) ∧
     arrays s' !! array_addr a = Some (linspace 0 5000) ∧
     lists s' !! list_addr l = Some (tolist (linspace 0 5000))) ∧
  prebuilt_list (env demo_state) = None ∧
  cell2 (libm := rounding_libm) 0 51 demo_state = Raise NameError demo_state ∧
  prebuilt_list (env (set_env (Globals false None (Some (ListRef 0)) None None) demo_state)) =
    Some (ListRef 0) ∧
  lists (set_env (Globals false None (Some (ListRef 0)) None None) demo_state)
    !! list_addr (ListRef 0) = Some [PyInt 0; PyInt 1; PyInt 2; PyInt 3] ∧
  (length [PyInt 0; PyInt 1; PyInt 2; PyInt 3] < 51)%nat ∧
  ((∃ s', cell2 (libm := rounding_libm) 0 51
            (set_env (Globals false None (Some (ListRef 0)) None None) demo_state) =
          Ok tt s' ∧
          extends (set_env (Globals false None (Some (ListRef 0)) None None) demo_state) s') ∨
   (∃ s', cell2 (libm := rounding_libm) 0 51
            (set_env (Globals false None (Some (ListRef 0)) None None) demo_state) =
          Raise OverflowError s' ∧
          extends (set_env (Globals false None (Some (ListRef 0)) None None) demo_state) s')) ∧
  np (env demo_state) = false ∧
  cell3 (libm := rounding_libm) 0 demo_state = Raise NameError demo_state ∧
  np (env (set_env numpy_imported demo_state)) = true ∧
  (∃ s', cell3 (libm := rounding_libm) 0 (set_env numpy_imported demo_state) = Ok tt s').
Proof.
  destruct (blocks_share_prebuilt_list_and_np (libm := rounding_libm) 0 51)
    as (_ & H1 & H2 & H2' & H3 & H3').
  split; [lia|]. split; [exact (H1 demo_state ltac:(lia))|].
  split; [reflexivity|]. split; [exact (H2 demo_state eq_refl)|].
  split; [reflexivity|]. split; [reflexivity|]. split; [cbn [length]; lia|].
  split.
  { exact (H2' (set_env (Globals false None (Some (ListRef 0)) None None) demo_state)
             (ListRef 0) [PyInt 0; PyInt 1; PyInt 2; PyInt 3] eq_refl eq_refl
             ltac:(cbn [length]; lia)). }
  split; [reflexivity|]. split; [exact (H3 demo_state eq_refl)|].
  split; [reflexivity|].
  destruct (H3' (set_env numpy_imported demo_state) eq_refl) as (s' & Hrun & _).
  exists s'. exact Hrun.
Defined.

(** C8, as stated, fails: the third block needs a second name of the first
    block, [np].  In a namespace without it the block stops with a
    NameError; give it [np] and nothing else, as the first block's import
    does, and it runs.  This is so whatever the C library. *)
Lemma block3_needs_np :
  prebuilt_list (env demo_state) = prebuilt_list numpy_imported ∧
  (∀ libm : Libm, cell3 0 demo_state = Raise NameError demo_state) ∧
  (∀ libm : Libm, ∃ s', cell3 0 (set_env numpy_imported demo_state) = Ok tt s') ∧
  (∀ libm : Libm, ∃ s', cell1 0 51 demo_state = Ok tt s' ∧ np (env s') = true).
Proof.
  split; [reflexivity|]. split; [|split].
  - intros libm. by apply cell3_unbound.
  - intros libm. destruct (cell3_run 0 (set_env numpy_imported demo_state) eq_refl)
      as (s' & Hrun & _).
    by exists s'.
  - intros libm.
    destruct (cell1_run 0 51 demo_state ltac:(lia))
      as (s' & a & l & Hrun & _ & _ & _ & Henv & _).
    exists s'. split; [exact Hrun|]. by rewrite Henv.
Qed.
(** * Further properties of the notebook's functions *)

(** ** What growing costs *)

Lemma length_tolist_np_append_int (a : ndarray) (z : Z) :
  length (tolist (np_append_int a z)) = S (length (tolist a)).
Proof.
  unfold np_append_int.
  destruct a as [data|data|data]; repeat case_bool_decide; unfold tolist;
    rewrite ?length_fmap, ?length_app, ?length_fmap; simpl; lia.
Qed.

Lemma length_append_trace (a : ndarray) (zs : list Z) :
  length (append_trace a zs) = length zs.
Proof. revert a. induction zs as [|z zs IH]; intros a; simpl; [done|]. by rewrite IH. Qed.

Lemma append_trace_sizes (zs : list Z) (a : ndarray) (k : nat) (arr : ndarray) :
  append_trace a zs !! k = Some arr →
  length (tolist arr) = (length (tolist a) + S k)%nat.
Proof.
  revert a k. induction zs as [|z zs IH]; intros a k Hk; [done|].
  destruct k as [|k]; simpl in Hk.
  - injection Hk as <-. rewrite length_tolist_np_append_int. lia.
  - apply IH in Hk. rewrite length_tolist_np_append_int in Hk. lia.
Qed.

Lemma append_trace_total (zs : list Z) (a : ndarray) :
  (2 * sum_list_with (λ arr, length (tolist arr)) (append_trace a zs) =
   2 * length (tolist a) * length zs + length zs * S (length zs))%nat.
Proof.
  revert a. induction zs as [|z zs IH]; intros a; [simpl; lia|].
  cbn [append_trace sum_list_with length].
  specialize (IH (np_append_int a z)).
  rewrite length_tolist_np_append_int in IH |- *. nia.
Qed.

Lemma foldl_np_append_int_size (zs : list Z) (a : ndarray) :
  length (tolist (foldl np_append_int a zs)) = (length (tolist a) + length zs)%nat.
Proof.
  revert a. induction zs as [|z zs IH]; intros a; simpl; [lia|].
  rewrite IH, length_tolist_np_append_int. lia.
Qed.

Lemma length_range (count : Z) : length (range count) = Z.to_nat count.
Proof. apply length_seqZ. Qed.

(** The loop of [build_array] ends with [out] naming the array allocated
    last. *)
Lemma for_range_np_append_last (zs : list Z) (out : array_ref) (s : state) :
  S (array_addr out) = length (arrays s) →
  ∃ out' s',
    for_range zs (λ i out, np_append out i) out s = Ok out' s' ∧
    S (array_addr out') = length (arrays s').
Proof.
  revert out s. induction zs as [|z zs IH]; intros out s Hout; simpl.
  - by eexists _, _.
  - destruct (arrays s !! array_addr out) as [a|] eqn:Ha.
    2:{ apply lookup_ge_None in Ha. lia. }
    erewrite bind_Ok by (by apply np_append_run).
    apply IH. simpl. rewrite length_app. simpl. lia.
Qed.

Lemma build_array_last_allocated (count : Z) (s : state) :
  ∃ out s', build_array count s = Ok out s' ∧ S (array_addr out) = length (arrays s').
Proof.
  unfold build_array.
  erewrite bind_Ok by reflexivity.
  destruct (for_range_np_append_last (range count)
              (ArrayRef (length (arrays s)))
              (set_arrays (arrays s ++ [F64 []]) (set_lists (lists s ++ [[]]) s)))
    as (out & s' & Hrun & Hout).
  { simpl. rewrite length_app. simpl. lia. }
  exists out, s'. by erewrite bind_Ok by exact Hrun.
Qed.

(** X1: [build_array(count)] never grows an array in place.  It returns
    the array it allocated last, which holds [count] elements; on the way
    it allocates, for every [k] up to [count], an array of [k] elements, so
    that the arrays of the call hold at least [count * (count + 1) / 2]
    elements in all; the objects that existed before are as they were.
    [build_list(count)] adds one list of [count] elements and no array. *)
Theorem build_array_copies (count : Z) (s : state) :
  (∃ out s' arr,
     build_array count s = Ok out s' ∧
     store_extends s s' ∧
     S (array_addr out) = length (arrays s') ∧
     arrays s !! array_addr out = None ∧
     arrays s' !! array_addr out = Some arr ∧
     length (tolist arr) = Z.to_nat count ∧
     (∀ k, (k ≤ Z.to_nat count)%nat →
        ∃ i a, (length (arrays s) ≤ i)%nat ∧
               arrays s' !! i = Some a ∧ length (tolist a) = k) ∧
     (Z.to_nat count * S (Z.to_nat count) ≤
      2 * sum_list_with (λ a, length (tolist a))
            (drop (length (arrays s)) (arrays s')))%nat) ∧
  (∃ out s' xs,
     build_list count s = Ok out s' ∧
     lists s' = lists s ++ [xs] ∧
     arrays s' = arrays s ∧
     lists s' !! list_addr out = Some xs ∧
     length xs = Z.to_nat count).
Proof.
  split.
  - destruct (build_array_run count s) as (out & Hrun & Hout).
    destruct (build_array_last_allocated count s) as (out' & s' & Hrun' & Hlast).
    rewrite Hrun in Hrun'. injection Hrun' as <- <-.
    exists out, (after_build_array count s),
      (foldl np_append_int (F64 []) (range count)).
    split_and!; [exact Hrun| |exact Hlast| |exact Hout| | |].
    + split; simpl; by apply prefix_app_r.
    + apply lookup_ge_None. simpl in Hlast.
      rewrite length_app in Hlast. simpl in Hlast. lia.
    + by rewrite foldl_np_append_int_size, length_range.
    + intros k Hk. simpl.
      assert (Hlt : (k < length (F64 [] :: append_trace (F64 []) (range count)))%nat).
      { simpl. rewrite length_append_trace, length_range. lia. }
      apply lookup_lt_is_Some in Hlt as [a Ha].
      exists (length (arrays s) + k)%nat, a. split_and!; [lia| |].
      * rewrite lookup_app_r by lia.
        replace (length (arrays s) + k - length (arrays s))%nat with k by lia. done.
      * destruct k as [|k]; simpl in Ha; [by injection Ha as <-|].
        by apply append_trace_sizes in Ha.
    + simpl. rewrite drop_app_length. cbn [sum_list_with].
      pose proof (append_trace_total (range count) (F64 [])) as Htot.
      rewrite length_range in Htot. simpl in Htot. unfold tolist at 1. simpl. lia.
  - eexists _, _, _. split; [apply build_list_run|].
    split_and!; [done|done|simpl; apply lookup_fresh_list|].
    by rewrite length_fmap, length_range.
Qed.

(** X2: a size that is zero or negative is not refused: [build_list] then
    returns an empty list and [build_array] an empty [float64] array. *)
Theorem build_nonpositive (count : Z) (s : state) :
  count ≤ 0 →
  result_list (build_list count s) = Some [] ∧
  result_array (build_array count s) = Some (F64 []).
Proof.
  intros Hc. rewrite result_list_build_list, result_array_build_array.
  unfold range. by rewrite seqZ_nil.
Qed.

Lemma build_nonpositive_witness :
  -3 ≤ 0 ∧
  result_list (build_list (-3) demo_state) = Some [] ∧
  result_array (build_array (-3) demo_state) = Some (F64 []).
Proof. split; [lia|]. apply (build_nonpositive (-3) demo_state). lia. Defined.

(** ** The random buffer, once more *)

(** X3: a negative size is refused with a ValueError, by the first call of
    [np.random.rand], before anything is drawn. *)
Theorem generate_dense_matrix_negative (N : Z) (density : spec_float) (s : state) :
  N < 0 → generate_dense_matrix N density s = Raise ValueError s.
Proof.
  intros HN. unfold generate_dense_matrix, np_random_rand.
  rewrite bool_decide_true by lia. done.
Qed.

Lemma generate_dense_matrix_negative_witness :
  -1 < 0 ∧ generate_dense_matrix (-1) default_density demo_state = Raise ValueError demo_state.
Proof.
  split; [lia|]. apply (generate_dense_matrix_negative (-1) default_density demo_state). lia.
Defined.

Lemma dense_buffer_ext (t : spec_float) (f g : nat → spec_float) (p q n : nat) :
  (∀ k, (k < 2 * (n * n))%nat → f (p + k)%nat = g (q + k)%nat) →
  dense_buffer t f p n = dense_buffer t g q n.
Proof.
  intros Hfg. unfold dense_buffer.
  apply list_fmap_ext. intros i' i [? ?]%lookup_seq. simpl.
  apply list_fmap_ext. intros j' j [? ?]%lookup_seq. simpl.
  assert (i * n + j < n * n)%nat by nia.
  f_equal.
  - rewrite <- !Nat.add_assoc. apply Hfg. lia.
  - replace (p + n * n + i * n + j)%nat with (p + (n * n + i * n + j))%nat by lia.
    replace (q + n * n + i * n + j)%nat with (q + (n * n + i * n + j))%nat by lia.
    apply Hfg. lia.
Qed.

(** X4: [generate_dense_matrix(N)] draws exactly [2 * N * N] numbers from the
    random source and touches neither an object nor a name; its result
    depends on these draws only, so a kernel whose random source delivers the
    same [2 * N * N] numbers next gets the same buffer. *)
Theorem generate_dense_matrix_draws (N : Z) (density : spec_float) (s s2 : state) :
  0 ≤ N →
  (∀ k, (k < 2 * (Z.to_nat N * Z.to_nat N))%nat →
        rng_stream s2 (rng_pos s2 + k)%nat = rng_stream s (rng_pos s + k)%nat) →
  ∃ b s' s2',
    generate_dense_matrix N density s = Ok b s' ∧
    generate_dense_matrix N density s2 = Ok b s2' ∧
    lists s' = lists s ∧ arrays s' = arrays s ∧ env s' = env s ∧
    rng_stream s' = rng_stream s ∧
    rng_pos s' = (rng_pos s + 2 * (Z.to_nat N * Z.to_nat N))%nat.
Proof.
  intros HN Hsame. eexists _, _, _.
  split; [by apply generate_dense_matrix_run|].
  split; [|done].
  rewrite generate_dense_matrix_run by done. do 2 f_equal.
  by apply dense_buffer_ext.
Qed.

Lemma generate_dense_matrix_draws_witness :
  0 ≤ 2 ∧
  (∀ k, (k < 2 * (Z.to_nat 2 * Z.to_nat 2))%nat →
        rng_stream (set_rng_pos 5 demo_state) (rng_pos (set_rng_pos 5 demo_state) + k)%nat =
        rng_stream demo_state (rng_pos demo_state + k)%nat) ∧
  ∃ b s' s2',
    generate_dense_matrix 2 default_density demo_state = Ok b s' ∧
    generate_dense_matrix 2 default_density (set_rng_pos 5 demo_state) = Ok b s2' ∧
    lists s' = lists demo_state ∧ arrays s' = arrays demo_state ∧
    env s' = env demo_state ∧
    rng_stream s' = rng_stream demo_state ∧
    rng_pos s' = (rng_pos demo_state + 2 * (Z.to_nat 2 * Z.to_nat 2))%nat.
Proof.
  split; [lia|]. split; [reflexivity|].
  apply (generate_dense_matrix_draws 2 default_density demo_state (set_rng_pos 5 demo_state));
    [lia|reflexivity].
Defined.

(** ** Shapes *)

(** X6: raising a square [np.matrix] to a positive power never fails and
    gives a square matrix of the same size; the state is not touched. *)
Theorem matrix_pow_keeps_shape {libm : Libm} (m : cmatrix) (p : positive) (s : state) :
  is_square m = true →
  ∃ m',
    buffer_pow (Matrix m) p s = Ok (Matrix m') s ∧
    length m' = length m ∧
    is_square m' = true.
Proof.
  intros Hsq. exists (matrix_power (complex128_buffer m) p).
  unfold buffer_pow. rewrite Hsq.
  apply is_square_rows in Hsq.
  destruct (matrix_power_shape p (length m) (complex128_buffer m)) as [H1 H2].
  { split; [apply length_complex128_buffer|by apply complex128_buffer_rows]. }
  split_and!; [done|done|]. apply is_square_rows. by rewrite H1.
Qed.

Lemma matrix_pow_keeps_shape_witness :
  is_square swap_buffer = true ∧
  ∃ m',
    buffer_pow (libm := rounding_libm) (Matrix swap_buffer) 300 demo_state =
      Ok (Matrix m') demo_state ∧
    length m' = length swap_buffer ∧
    is_square m' = true.
Proof.
  split; [reflexivity|].
  apply (matrix_pow_keeps_shape (libm := rounding_libm) swap_buffer 300 demo_state).
  reflexivity.
Defined.

(** ** The blocks, once more *)

(** X7: the second block does nothing but add lists to the store.  With
    [prebuilt_list] naming a list whose elements all have squares, [runs + 1]
    executions of each timed statement leave [2 * (runs + 1)] new lists,
    every one of them the squares of that list, and change no name, no array
    and no existing list.  Where an element has no square, the first call
    raises OverflowError, leaving one new list behind. *)
Theorem cell2_effect {libm : Libm} (runs fuel : nat) (l : list_ref)
    (xs : list scalar) (s : state) :
  prebuilt_list (env s) = Some l → lists s !! list_addr l = Some xs →
  (length xs < fuel)%nat →
  (∀ ys, Forall2 square_of xs ys →
     cell2 runs fuel s =
       Ok tt (set_lists (lists s ++ replicate (2 * S runs) ys) s)) ∧
  (¬ Forall has_square xs →
     ∃ acc, cell2 runs fuel s =
              Raise OverflowError (set_lists (lists s ++ [acc]) s)).
Proof.
  intros Hname Hl Hfuel. split.
  - intros ys Hys%mapM_pow2_squares. by apply (cell2_run runs fuel l xs).
  - intros Hno%mapM_pow2_None. by apply (cell2_overflow runs fuel l xs).
Qed.

Lemma cell2_effect_witness :
  prebuilt_list (env (set_env (Globals false None (Some (ListRef 0)) None None) demo_state)) =
    Some (ListRef 0) ∧
  lists (set_env (Globals false None (Some (ListRef 0)) None None) demo_state)
    !! list_addr (ListRef 0) = Some [PyInt 0; PyInt 1; PyInt 2; PyInt 3] ∧
  (length [PyInt 0; PyInt 1; PyInt 2; PyInt 3] < 5)%nat ∧
  Forall2 (square_of (libm := rounding_libm)) [PyInt 0; PyInt 1; PyInt 2; PyInt 3]
    [PyInt 0; PyInt 1; PyInt 4; PyInt 9] ∧
  cell2 (libm := rounding_libm) 1 5
    (set_env (Globals false None (Some (ListRef 0)) None None) demo_state) =
    Ok tt (set_lists
             (lists (set_env (Globals false None (Some (ListRef 0)) None None) demo_state) ++
              replicate (2 * 2) [PyInt 0; PyInt 1; PyInt 4; PyInt 9])
             (set_env (Globals false None (Some (ListRef 0)) None None) demo_state)).
Proof.
  assert (Hsq : Forall2 (square_of (libm := rounding_libm))
                  [PyInt 0; PyInt 1; PyInt 2; PyInt 3]
                  [PyInt 0; PyInt 1; PyInt 4; PyInt 9]).
  { repeat first [apply Forall2_nil_2 | apply Forall2_cons_2].
    - exact (square_of_int 0).
    - exact (square_of_int 1).
    - exact (square_of_int 2).
    - exact (square_of_int 3). }
  destruct (cell2_effect (libm := rounding_libm) 1 5 (ListRef 0)
              [PyInt 0; PyInt 1; PyInt 2; PyInt 3]
              (set_env (Globals false None (Some (ListRef 0)) None None) demo_state)
              eq_refl eq_refl ltac:(cbn [length]; lia)) as [Hrun _].
  split; [reflexivity|]. split; [reflexivity|]. split; [cbn [length]; lia|].
  split; [exact Hsq|]. exact (Hrun _ Hsq).
Defined.

(** X8: run from top to bottom, in whatever state the kernel is, the
    notebook finishes without an exception.  It leaves every existing object
    as it was and binds its names: [np] to numpy, [prebuilt_array] to the 50
    points of [np.linspace(0, 5000)], [prebuilt_list] to a list of the same
    50 numbers, [big_ndarray] and [big_matrix] to two 500 by 500 buffers. *)
Theorem notebook_runs {libm : Libm} (runs fuel : nat) (s : state) :
  (50 < fuel)%nat →
  ∃ s' a l b1 b2,
    notebook runs fuel s = Ok tt s' ∧
    store_extends s s' ∧
    env s' = Globals true (Some a) (Some l) (Some (Ndarray2 b1)) (Some (Matrix b2)) ∧
    arrays s' !! array_addr a = Some (linspace 0 5000) ∧
    lists s' !! list_addr l = Some (tolist (linspace 0 5000)) ∧
    length (tolist (linspace 0 5000)) = 50%nat ∧
    is_square b1 = true ∧ length b1 = 500%nat ∧
    is_square b2 = true ∧ length b2 = 500%nat.
Proof.
  intros Hfuel. unfold notebook.
  destruct (cell1_run runs fuel s Hfuel)
    as (s1 & a & l & Hrun1 & Hext1 & _ & _ & Henv1 & Ha1 & Hl1).
  pose proof (length_linspace 0 5000) as Hlen.
  destruct (tolist_linspace 0 5000) as [data Hdata].
  generalize dependent (linspace 0 5000). intros lin Ha1 Hl1 Hlen Hdata.
  assert (Hrun2 : cell2 runs fuel s1 =
            Ok tt (set_lists (lists s1 ++
                     replicate (2 * S runs) (NpFloat64 <$> (libm_pow_2 <$> data))) s1)).
  { apply (cell2_run runs fuel l (tolist lin)).
    - rewrite Henv1. reflexivity.
    - exact Hl1.
    - rewrite Hlen. exact Hfuel.
    - rewrite Hdata. apply mapM_pow2_float64s. }
  set (s2 := set_lists _ s1) in Hrun2.
  assert (Hext2 : extends s1 s2) by apply extends_add_lists.
  assert (Hnp2 : np (env s2) = true).
  { destruct Hext2 as (_ & _ & _ & ->). by rewrite Henv1. }
  destruct (cell3_run runs s2 Hnp2) as (s3 & Hrun3 & Hl3 & Ha3 & _ & Henv3).
  destruct Hext2 as (Hst2 & _ & _ & Henv2).
  exists s3, a, l.
  eexists _, _.
  split.
  { erewrite bind_Ok by exact Hrun1. erewrite bind_Ok by exact Hrun2. exact Hrun3. }
  split.
  { destruct Hext1 as [H1 H2], Hst2 as [H3 H4]. split.
    - rewrite Hl3. etrans; [exact H1|exact H3].
    - rewrite Ha3. etrans; [exact H2|exact H4]. }
  split.
  { rewrite Henv3, Henv2, Henv1. reflexivity. }
  split.
  { rewrite Ha3. eapply extends_arrays; [exact Hst2|exact Ha1]. }
  split.
  { rewrite Hl3. eapply extends_lists; [exact Hst2|exact Hl1]. }
  split; [exact Hlen|].
  generalize (Float64.div default_density (Float64.of_int 2)). intros t.
  split; [apply is_square_dense_buffer|].
  split; [unfold dense_buffer; rewrite length_fmap, length_seq; reflexivity|].
  split; [apply is_square_dense_buffer|].
  unfold dense_buffer. rewrite length_fmap, length_seq. reflexivity.
Qed.

Lemma notebook_runs_witness :
  (50 < 51)%nat ∧
  ∃ s' a l b1 b2,
    notebook (libm := rounding_libm) 0 51 demo_state = Ok tt s' ∧
    store_extends demo_state s' ∧
    env s' = Globals true (Some a) (Some l) (Some (Ndarray2 b1)) (Some (Matrix b2)) ∧
    arrays s' !! array_addr a = Some (linspace 0 5000) ∧
    lists s' !! list_addr l = Some (tolist (linspace 0 5000)) ∧
    length (tolist (linspace 0 5000)) = 50%nat ∧
    is_square b1 = true ∧ length b1 = 500%nat ∧
    is_square b2 = true ∧ length b2 = 500%nat.
Proof.
  split; [lia|]. apply (notebook_runs (libm := rounding_libm) 0 51 demo_state). lia.
Defined.

(** ** Squaring 64-bit integers *)

(** X9: on an [int64] array [square_all_array] returns the exact squares as
    long as every element lies between -3037000499 and 3037000499; past
    that bound the square no longer fits in 64 bits and wraps around
    silently: 3037000500 is squared to a negative number. *)
Theorem square_all_array_int64 {libm : Libm} (a : array_ref) (data : list Z) (s : state) :
  arrays s !! array_addr a = Some (I64 data) →
  Forall (λ z, -3037000499 ≤ z ≤ 3037000499) data →
  result_array (square_all_array a s) = Some (I64 ((λ z, z ^ 2) <$> data)) ∧
  ndarray_pow2 (I64 [3037000500]) = Some (I64 [3037000500 ^ 2 - 2 ^ 64]) ∧
  3037000500 ^ 2 - 2 ^ 64 < 0.
Proof.
  intros Ha Hdata. split; [|by vm_compute].
  rewrite (square_all_array_returns a _ _ s Ha eq_refl). simpl. rewrite lookup_fresh_list.
  do 2 f_equal. apply Forall_fmap_ext_1.
  eapply Forall_impl; [exact Hdata|]. intros z Hz. simpl in Hz.
  apply wrap64_small. rewrite Z.pow_2_r. nia.
Qed.

Lemma square_all_array_int64_witness :
  arrays demo_state !! array_addr (ArrayRef 0) = Some (I64 [0; 1; 2; 3]) ∧
  Forall (λ z, -3037000499 ≤ z ≤ 3037000499) [0; 1; 2; 3] ∧
  result_array (square_all_array (libm := rounding_libm) (ArrayRef 0) demo_state) =
    Some (I64 ((λ z, z ^ 2) <$> [0; 1; 2; 3])) ∧
  ndarray_pow2 (libm := rounding_libm) (I64 [3037000500]) =
    Some (I64 [3037000500 ^ 2 - 2 ^ 64]) ∧
  3037000500 ^ 2 - 2 ^ 64 < 0.
Proof.
  assert (H : Forall (λ z, -3037000499 ≤ z ≤ 3037000499) [0; 1; 2; 3])
    by (repeat constructor; lia).
  split; [reflexivity|]. split; [exact H|].
  apply (square_all_array_int64 (libm := rounding_libm) (ArrayRef 0) [0; 1; 2; 3]
           demo_state); [reflexivity|exact H].
Defined.

(** ** The density parameter *)

Lemma SFcompare_Lt_trans (x y z : spec_float) :
  SFleb x y = true → SFltb y z = true → SFltb x z = true.
Proof.
  unfold SFleb, SFltb.
  destruct x as [sx|sx| |sx mx ex], y as [sy|sy| |sy my ey], z as [sz|sz| |sz mz ez];
    try destruct sx; try destruct sy; try destruct sz; simpl; try done;
    change (Pos.compare_cont Eq) with Pos.compare;
    repeat match goal with
           | |- context [(?a ?= ?b)%Z] => destruct (Z.compare_spec a b)
           | |- context [(?a ?= ?b)%positive] => destruct (Pos.compare_spec a b)
           end; simpl; try done; lia.
Qed.

Lemma dense_entry_mono (t1 t2 x y : spec_float) :
  SFleb t1 t2 = true →
  Complex.re (dense_entry t2 x y) ≤ Complex.re (dense_entry t1 x y) ∧
  Complex.im (dense_entry t2 x y) ≤ Complex.im (dense_entry t1 x y).
Proof.
  intros Hle. unfold dense_entry, Float64.gt. simpl.
  pose proof (SFcompare_Lt_trans t1 t2 x Hle) as Hx.
  pose proof (SFcompare_Lt_trans t1 t2 y Hle) as Hy.
  destruct (SFltb t2 x); [rewrite Hx by done|];
    (destruct (SFltb t2 y); [rewrite Hy by done|]);
    repeat match goal with |- context [SFltb ?a ?b] => destruct (SFltb a b) end;
    simpl; lia.
Qed.

(** X5: a larger [density] never adds a non-zero part: when
    [density1 / 2 <= density2 / 2], every element generated with [density2]
    has real and imaginary parts at most those of the element generated with
    [density1] from the same draws. *)
Theorem higher_density_fewer_ones (N : Z) (density1 density2 : spec_float) (s : state) :
  0 ≤ N →
  SFleb (Float64.div density1 (Float64.of_int 2))
        (Float64.div density2 (Float64.of_int 2)) = true →
  ∃ m1 m2 s',
    generate_dense_matrix N density1 s = Ok (Ndarray2 m1) s' ∧
    generate_dense_matrix N density2 s = Ok (Ndarray2 m2) s' ∧
    Forall2 (Forall2 (λ z1 z2, Complex.re z2 ≤ Complex.re z1 ∧
                               Complex.im z2 ≤ Complex.im z1)) m1 m2.
Proof.
  intros HN Hle. eexists _, _, _.
  split; [by apply generate_dense_matrix_run|].
  split; [by apply generate_dense_matrix_run|].
  unfold dense_buffer.
  apply Forall2_fmap, Forall_Forall2_diag, Forall_forall. intros i _. cbv beta.
  apply Forall2_fmap, Forall_Forall2_diag, Forall_forall. intros j _. cbv beta.
  by apply dense_entry_mono.
Qed.

Lemma higher_density_fewer_ones_witness :
  0 ≤ 2 ∧
  SFleb (Float64.div default_density (Float64.of_int 2))
        (Float64.div (Float64.of_int 1) (Float64.of_int 2)) = true ∧
  ∃ m1 m2 s',
    generate_dense_matrix 2 default_density demo_state = Ok (Ndarray2 m1) s' ∧
    generate_dense_matrix 2 (Float64.of_int 1) demo_state = Ok (Ndarray2 m2) s' ∧
    Forall2 (Forall2 (λ z1 z2, Complex.re z2 ≤ Complex.re z1 ∧
                               Complex.im z2 ≤ Complex.im z1)) m1 m2.
Proof.
  split; [lia|]. split; [vm_compute; reflexivity|].
  apply (higher_density_fewer_ones 2 default_density (Float64.of_int 1) demo_state);
    [lia|vm_compute; reflexivity].
Defined.

(** ** Squaring small integers held as doubles *)

Lemma iter_pos_nat {A} (f : A → A) (p : positive) (x : A) :
  SpecFloat.iter_pos f p x = Nat.iter (Pos.to_nat p) f x.
Proof.
  revert x. induction p as [p IH|p IH|]; intros x; simpl SpecFloat.iter_pos.
  - rewrite !IH, Pos2Nat.inj_xI, <- Nat.iter_add, <- Nat.iter_succ_r. f_equal. lia.
  - rewrite !IH, Pos2Nat.inj_xO, <- Nat.iter_add. f_equal. lia.
  - done.
Qed.

Lemma shr_1_iter_xO (n : nat) (m : positive) :
  Nat.iter n shr_1 (Build_shr_record (Zpos (Nat.iter n xO m)) false false) =
  Build_shr_record (Zpos m) false false.
Proof.
  induction n as [|n IH]; [done|].
  rewrite Nat.iter_succ_r. simpl. exact IH.
Qed.

(** A 53-bit mantissa shifted to the left comes back from rounding as it
    was, with the shift added to the exponent. *)
Lemma binary_round_aux_shifted (s : bool) (m k : positive) (e : Z) :
  Zpos (digits2_pos m) = 53 → -1074 ≤ e + Zpos k ≤ 971 →
  binary_round_aux 53 1024 s (Zpos (Pos.iter xO m k)) e loc_Exact =
    S754_finite s m (e + Zpos k).
Proof.
  intros Hd He.
  unfold binary_round_aux, shr_fexp at 1, fexp, emin. simpl Zdigits2.
  rewrite digits2_pos_iter_xO, Pos2Z.inj_add, Hd.
  replace (Z.max (53 + Zpos k + e - 53) (3 - 1024 - 53) - e) with (Zpos k) by lia.
  unfold shr. simpl shr_record_of_loc.
  rewrite iter_pos_nat, Pos2Nat.inj_iter.
  change (nat_rect (λ _, positive) m (λ _, xO) (Pos.to_nat k))
    with (Nat.iter (Pos.to_nat k) xO m).
  rewrite shr_1_iter_xO.
  simpl shr_m. simpl loc_of_shr_record. simpl round_nearest_even.
  unfold shr_fexp, fexp, emin. simpl Zdigits2. rewrite Hd.
  replace (Z.max (53 + (e + Zpos k) - 53) (3 - 1024 - 53) - (e + Zpos k)) with 0 by lia.
  simpl.
  destruct (e + Zpos k <=? 1024 - 53) eqn:E; [done|lia].
Qed.

Lemma Zpos_shiftl (m : positive) (n : N) :
  Zpos (Pos.shiftl m n) = Zpos m * 2 ^ Z.of_N n.
Proof.
  destruct n as [|k]; unfold Pos.shiftl.
  - simpl. lia.
  - apply Zpos_iter_xO.
Qed.

Lemma digits2_pos_shiftl (m : positive) (n : N) :
  Zpos (digits2_pos (Pos.shiftl m n)) = Zpos (digits2_pos m) + Z.of_N n.
Proof.
  destruct n as [|k]; unfold Pos.shiftl; [simpl; lia|].
  rewrite digits2_pos_iter_xO. simpl. lia.
Qed.

Lemma of_int_small_shiftl (m : positive) :
  Zpos m < 2 ^ 53 →
  Float64.of_int (Zpos m) =
    S754_finite false (Pos.shiftl m (Z.to_N (53 - Zpos (digits2_pos m))))
      (Zpos (digits2_pos m) - 53).
Proof.
  intros Hm. rewrite of_int_small by done.
  by destruct (53 - Zpos (digits2_pos m)).
Qed.

Lemma digits2_pos_mul_lower (i j : positive) :
  Zpos (digits2_pos i) + Zpos (digits2_pos j) - 1 ≤ Zpos (digits2_pos (i * j)).
Proof.
  pose proof (digits2_pos_bounds i) as [Hi _].
  pose proof (digits2_pos_bounds j) as [Hj _].
  pose proof (digits2_pos_bounds (i * j)) as [_ Hij].
  rewrite Pos2Z.inj_mul in Hij.
  assert (H : 2 ^ (Zpos (digits2_pos i) - 1 + (Zpos (digits2_pos j) - 1))
              < 2 ^ Zpos (digits2_pos (i * j))).
  { rewrite Z.pow_add_r by lia.
    eapply Z.le_lt_trans; [|exact Hij].
    apply Z.mul_le_mono_nonneg; try done; apply Z.pow_nonneg; lia. }
  apply Z.pow_lt_mono_r_iff in H; lia.
Qed.

(** The product of two integers held as doubles is computed without error
    when it is below [2^53]. *)
Lemma mul_of_int_exact (i j : positive) :
  Zpos i * Zpos j < 2 ^ 53 →
  Float64.mul (Float64.of_int (Zpos i)) (Float64.of_int (Zpos j)) =
    Float64.of_int (Zpos (i * j)).
Proof.
  intros Hij.
  assert (Hi : Zpos i < 2 ^ 53) by nia.
  assert (Hj : Zpos j < 2 ^ 53) by nia.
  rewrite !of_int_small_shiftl by (rewrite ?Pos2Z.inj_mul; done).
  pose proof (digits2_pos_le_53 i Hi) as Hdi.
  pose proof (digits2_pos_le_53 j Hj) as Hdj.
  pose proof (digits2_pos_le_53 (i * j)) as Hd. rewrite Pos2Z.inj_mul in Hd.
  specialize (Hd Hij).
  pose proof (digits2_pos_mul_lower i j) as Hlow.
  set (di := Zpos (digits2_pos i)) in *.
  set (dj := Zpos (digits2_pos j)) in *.
  set (d := Zpos (digits2_pos (i * j))) in *.
  unfold Float64.mul, SFmul. simpl xorb.
  set (c := Z.to_N (53 - d)).
  assert (Hk : 0 < 53 - di + (53 - dj) - (53 - d)) by lia.
  destruct (53 - di + (53 - dj) - (53 - d)) as [|k|k] eqn:Ek; [lia| |lia].
  assert (Hm : (Pos.shiftl i (Z.to_N (53 - di)) * Pos.shiftl j (Z.to_N (53 - dj)))%positive
               = Pos.iter xO (Pos.shiftl (i * j) c) k).
  { apply Pos2Z.inj. rewrite Pos2Z.inj_mul, Zpos_iter_xO, !Zpos_shiftl, Pos2Z.inj_mul.
    unfold c. rewrite !Z2N.id by lia.
    replace (53 - di) with (53 - d + Zpos k - (53 - dj)) by lia.
    replace (2 ^ (53 - d + Zpos k - (53 - dj)))
      with (2 ^ (53 - d) * 2 ^ Zpos k / 2 ^ (53 - dj)).
    2:{ rewrite <- Z.pow_add_r, <- Z.pow_sub_r by lia. done. }
    assert (Hdiv : 2 ^ (53 - d) * 2 ^ Zpos k
                   = 2 ^ (53 - dj) * (2 ^ (53 - d) * 2 ^ Zpos k / 2 ^ (53 - dj))).
    { rewrite <- Z.pow_add_r by lia.
      replace (53 - d + Zpos k) with (53 - dj + (53 - di)) by lia.
      rewrite Z.pow_add_r by lia.
      rewrite (Z.mul_comm (2 ^ (53 - dj))), Z.div_mul; [lia|].
      apply Z.pow_nonzero; lia. }
    revert Hdiv.
    generalize (2 ^ (53 - d) * 2 ^ Zpos k / 2 ^ (53 - dj)).
    generalize (2 ^ (53 - d)) (2 ^ Zpos k) (2 ^ (53 - dj)).
    intros A B C Q HQ. nia. }
  rewrite Hm, binary_round_aux_shifted.
  - f_equal. lia.
  - rewrite digits2_pos_shiftl. unfold c. rewrite Z2N.id by lia. fold d. lia.
  - lia.
Qed.

(** In particular the square of an integer held as a double is exact when
    it is below [2^53]. *)
Lemma square_of_int_exact (z : Z) :
  0 ≤ z → z * z < 2 ^ 53 →
  Float64.mul (Float64.of_int z) (Float64.of_int z) = Float64.of_int (z ^ 2).
Proof.
  intros Hz Hsq. destruct z as [|m|m]; [done| |lia].
  rewrite mul_of_int_exact by done. by rewrite Z.pow_2_r.
Qed.

(** X10: squaring what the growth functions built.  For every [count] up to
    94906266, so that all squares stay below [2^53],
    [square_all_array(build_array(count))] holds the squares
    [0, 1, 4, ...] exactly, as doubles, and agrees in value at every
    position with [square_all_list(build_list(count))], which holds them as
    Python ints. *)
Theorem squares_of_built_sequences {libm : Libm} (count : Z) (fuel : nat) (s : state) :
  count ≤ 94906266 → (Z.to_nat count < fuel)%nat →
  ∃ data xs,
    result_array ((build_array count ≫= square_all_array) s) = Some (F64 data) ∧
    result_list ((build_list count ≫= square_all_list fuel) s) = Some xs ∧
    data = Float64.of_int <$> ((λ i, i ^ 2) <$> range count) ∧
    xs = PyInt <$> ((λ i, i ^ 2) <$> range count) ∧
    Forall2 same_value_other_type (tolist (F64 data)) xs.
Proof.
  intros Hc Hfuel.
  exists (Float64.of_int <$> ((λ i, i ^ 2) <$> range count)),
         (PyInt <$> ((λ i, i ^ 2) <$> range count)).
  split_and!; [| |done|done|].
  - destruct (build_array_run count s) as (out & Hrun & Hout).
    erewrite bind_Ok by exact Hrun.
    rewrite build_array_content in Hout by lia.
    rewrite (square_all_array_returns out _ _ _ Hout eq_refl).
    cbn [result_array array_addr arrays set_arrays].
    rewrite lookup_fresh_list. do 3 f_equal.
    rewrite <- !list_fmap_compose.
    apply list_fmap_ext. intros k z Hz%lookup_seqZ. unfold compose.
    apply square_of_int_exact; [lia|nia].
  - erewrite bind_Ok by apply build_list_run.
    rewrite (square_all_list_returns fuel _ (PyInt <$> range count)
               (PyInt <$> ((λ i, i ^ 2) <$> range count))).
    + cbn [result_list list_addr lists set_lists].
      by rewrite lookup_fresh_list.
    + cbn [lists set_lists list_addr]. apply lookup_fresh_list.
    + by rewrite length_fmap, length_range.
    + rewrite mapM_pow2_ints. do 2 f_equal.
      apply list_fmap_ext. intros _ z _. by rewrite Z.pow_2_r.
  - unfold tolist. apply Forall2_fmap, Forall2_fmap_l, Forall_Forall2_diag, Forall_fmap.
    eapply Forall_impl; [apply range_bounds|].
    intros z Hz. cbv beta in Hz. unfold compose. split; [done|].
    exists (z ^ 2). split; [done|].
    cbn [scalar_eq_int]. apply of_int_exact. rewrite Z.pow_2_r. nia.
Qed.

Lemma squares_of_built_sequences_witness :
  4 ≤ 94906266 ∧ (Z.to_nat 4 < 5)%nat ∧
  ∃ data xs,
    result_array ((build_array 4 ≫= square_all_array (libm := rounding_libm)) demo_state) =
      Some (F64 data) ∧
    result_list ((build_list 4 ≫= square_all_list (libm := rounding_libm) 5) demo_state) =
      Some xs ∧
    data = Float64.of_int <$> ((λ i, i ^ 2) <$> range 4) ∧
    xs = PyInt <$> ((λ i, i ^ 2) <$> range 4) ∧
    Forall2 same_value_other_type (tolist (F64 data)) xs.
Proof.
  split; [lia|]. split; [simpl; lia|].
  apply (squares_of_built_sequences (libm := rounding_libm) 4 5 demo_state);
    [lia|simpl; lia].
Defined.
